(** * sf-field-analysis: field descriptor extraction and cross-reference
    resolution, embedded from the TypeScript sources.

    Strings are sequences of code units; the embedding works with the
    8-bit range (Latin-1) of Rocq's [ascii]: [toLowerCase] stays inside
    it, and two of its code units are equal under the matcher's
    case-insensitive comparison exactly when their upper-case forms
    inside the range are.  JavaScript objects that are iterated
    ([Object.keys], [Object.entries]) are association lists in iteration
    order; the [Set] of known field names is a [gset]; the last-modified
    dictionary is a [gmap] of its own properties, looked up together with
    what every object inherits. *)

From Stdlib Require Import Ascii String NArith Bool List DecimalString.
From stdpp Require Import base option list strings gmap.

Local Open Scope string_scope.
Local Open Scope list_scope.
Set Warnings "-register-all".

(* ===================================================================== *)
(** ** ECMAScript string primitives used by the program *)
(* ===================================================================== *)

Module JS.

Definition code (c : ascii) : N := N_of_ascii c.

Definition between (lo hi : N) (c : ascii) : bool :=
  (lo <=? code c)%N && (code c <=? hi)%N.

Definition shift_up (c : ascii) : ascii := ascii_of_N (code c + 32).
Definition shift_down (c : ascii) : ascii := ascii_of_N (code c - 32).

(** [String.prototype.toLowerCase] on one code unit: A-Z, and the
    Latin-1 capitals U+00C0..U+00DE except the multiplication sign. *)
Definition lower_char (c : ascii) : ascii :=
  if between 65 90 c then shift_up c
  else if between 192 222 c && negb (code c =? 215)%N then shift_up c
  else c.

Fixpoint toLowerCase (s : string) : string :=
  match s with
  | EmptyString => EmptyString
  | String c r => String (lower_char c) (toLowerCase r)
  end.

(** [String.prototype.includes]: case-sensitive substring search. *)
Fixpoint includes (s needle : string) : bool :=
  String.prefix needle s
  || match s with
     | EmptyString => false
     | String _ r => includes r needle
     end.

(** White space and line terminators stripped by [trim]. *)
Definition is_space (c : ascii) : bool :=
  between 9 13 c || (code c =? 32)%N || (code c =? 160)%N.

Fixpoint trimStart (s : string) : string :=
  match s with
  | EmptyString => EmptyString
  | String c r => if is_space c then trimStart r else s
  end.

Fixpoint trimEnd (s : string) : string :=
  match s with
  | EmptyString => EmptyString
  | String c r =>
      match trimEnd r with
      | EmptyString => if is_space c then EmptyString else String c EmptyString
      | r' => String c r'
      end
  end.

Definition trim (s : string) : string := trimEnd (trimStart s).

(** [Array.prototype.join] on an array of strings. *)
Definition join (sep : string) (l : list string) : string := String.concat sep l.

(** Truthiness of a string: every string but the empty one. *)
Definition truthy_str (s : string) : bool := negb (String.eqb s "").

End JS.

(* ===================================================================== *)
(** ** The fragment of RegExp that [containsField] can build *)
(* ===================================================================== *)

Module RegExp.

(** Terms of a pattern: the [\b] assertion and single pattern characters
    (plain, or written as an identity escape). *)
Inductive term : Type :=
| WordBoundary
| PatternChar (c : ascii).

Record regexp : Type := { source : list term; ignoreCaseFlag : bool }.

(** SyntaxCharacter of the pattern grammar: ^ $ \ . * + ? ( ) [ ] { } | *)
Definition is_syntax_char (c : ascii) : bool :=
  existsb (Ascii.eqb c)
    ["^"; "$"; "\"; "."; "*"; "+"; "?"; "("; ")"; "["; "]"; "{"; "}"; "|"]%char.

(** Pattern parser.  [None] stands for a pattern the constructor rejects
    or that leaves the fragment (operators, classes, other escapes). *)
Fixpoint parse (p : string) : option (list term) :=
  match p with
  | EmptyString => Some []
  | String "\" EmptyString => None
  | String "\" (String c r) =>
      if Ascii.eqb c "b" then cons WordBoundary <$> parse r
      else if is_syntax_char c then cons (PatternChar c) <$> parse r
      else None
  | String c r =>
      if is_syntax_char c then None else cons (PatternChar c) <$> parse r
  end.

Definition new (pattern flags : string) : option regexp :=
  match parse pattern with
  | Some ts =>
      if String.eqb flags "i" then Some {| source := ts; ignoreCaseFlag := true |}
      else if String.eqb flags "" then Some {| source := ts; ignoreCaseFlag := false |}
      else None
  | None => None
  end.

(** Canonicalize (non-unicode mode): the upper-case code unit, unless
    upper-casing leaves one code unit or maps out of the range. *)
Definition upper_char (c : ascii) : ascii :=
  if JS.between 97 122 c then JS.shift_down c
  else if JS.between 224 254 c && negb (JS.code c =? 247)%N then JS.shift_down c
  else c.

Definition canonicalize (ic : bool) (c : ascii) : ascii :=
  if ic then upper_char c else c.

(** IsWordChar: [A-Za-z0-9_]; a position outside the input is not one. *)
Definition is_word_char (c : ascii) : bool :=
  JS.between 97 122 c || JS.between 65 90 c || JS.between 48 57 c
  || (JS.code c =? 95)%N.

Definition is_word_at (o : option ascii) : bool :=
  match o with Some c => is_word_char c | None => false end.

Definition head_char (s : string) : option ascii :=
  match s with EmptyString => None | String c _ => Some c end.

(** Match the terms at the current position; [prev] is the code unit
    just before it. *)
Fixpoint match_here (ic : bool) (ts : list term) (prev : option ascii)
    (input : string) : bool :=
  match ts with
  | [] => true
  | WordBoundary :: ts' =>
      xorb (is_word_at prev) (is_word_at (head_char input))
      && match_here ic ts' prev input
  | PatternChar c :: ts' =>
      match input with
      | EmptyString => false
      | String d rest =>
          Ascii.eqb (canonicalize ic c) (canonicalize ic d)
          && match_here ic ts' (Some d) rest
      end
  end.

(** Try every start index from the current one to the end of input. *)
Fixpoint search (ic : bool) (ts : list term) (prev : option ascii)
    (input : string) : bool :=
  match_here ic ts prev input
  || match input with
     | EmptyString => false
     | String d rest => search ic ts (Some d) rest
     end.

(** [RegExp.prototype.test] without the global or sticky flag. *)
Definition test (re : regexp) (text : string) : bool :=
  search (ignoreCaseFlag re) (source re) None text.

End RegExp.

(* ===================================================================== *)
(** ** analysis/matchers.ts *)
(* ===================================================================== *)

Module Matchers.

Record Opts : Type := { ignoreCase : option bool; wholeWord : option bool }.

Definition defaultOpts : Opts :=
  {| ignoreCase := Some true; wholeWord := Some true |}.

(** [fieldName.replace(/[.*+?^${}()|[\]\\]/g, "\\$&")] *)
Definition needs_escape (c : ascii) : bool :=
  existsb (Ascii.eqb c)
    ["."; "*"; "+"; "?"; "^"; "$"; "{"; "}"; "("; ")"; "|"; "["; "]"; "\"]%char.

Fixpoint escape (s : string) : string :=
  match s with
  | EmptyString => EmptyString
  | String c r =>
      if needs_escape c then String "\" (String c (escape r))
      else String c (escape r)
  end.

(** [None] is a throw from the RegExp constructor. *)
Definition containsField (text fieldName : string) (opts : Opts) : option bool :=
  let ic := default true (ignoreCase opts) in
  let ww := default true (wholeWord opts) in
  if negb (JS.truthy_str text) || negb (JS.truthy_str fieldName) then Some false
  else if negb ww then
    Some (if ic then JS.includes (JS.toLowerCase text) (JS.toLowerCase fieldName)
          else JS.includes text fieldName)
  else
    let esc := escape fieldName in
    re ← RegExp.new ("\b" +:+ esc +:+ "\b") (if ic then "i" else "");
    Some (RegExp.test re text).

(** The call [containsField(text, needle)] of the callers, used as a
    condition; the constructor never throws on an escaped name (shown
    below), so the condition is a boolean. *)
Definition matches (text fieldName : string) : bool :=
  match containsField text fieldName defaultOpts with
  | Some b => b
  | None => false
  end.

End Matchers.

(* ===================================================================== *)
(** ** Values produced by the XML parser, and exceptions *)
(* ===================================================================== *)

Module Value.

(** What [parseStringPromise] can hand back: strings, arrays, objects
    (own properties in insertion order) and [null].  [undefined] is the
    [None] of [option value]. *)
Inductive value : Type :=
| VNull
| VStr (s : string)
| VArr (items : list value)
| VObj (props : list (string * value)).

Inductive exn : Type :=
| TypeError (msg : string)
| Error (msg : string)
| Rejected (msg : string).

Inductive result (A : Type) : Type :=
| Ok (a : A)
| Throw (e : exn).
Arguments Ok {A} a.
Arguments Throw {A} e.

Fixpoint assoc {A : Type} (k : string) (l : list (string * A)) : option A :=
  match l with
  | [] => None
  | (k', v) :: r => if String.eqb k k' then Some v else assoc k r
  end.

Definition truthy (o : option value) : bool :=
  match o with
  | None | Some VNull => false
  | Some (VStr s) => JS.truthy_str s
  | Some (VArr _) | Some (VObj _) => true
  end.

(** [v?.[key]] for a key that names an element: only objects have such a
    property.  The one other key the program uses is ["length"], always
    followed by [?.[0]]: on a string or an array it is a number, whose
    [[0]] is [undefined], the same as indexing the [None] given here. *)
Definition get (o : option value) (key : string) : option value :=
  match o with
  | Some (VObj props) => assoc key props
  | _ => None
  end.

(** [v?.[0]] *)
Definition index0 (o : option value) : option value :=
  match o with
  | Some (VArr items) => head items
  | Some (VStr (String c _)) => Some (VStr (String c EmptyString))
  | Some (VObj props) => assoc "0" props
  | _ => None
  end.

(** [String(v)] *)
Fixpoint toString (v : value) : string :=
  match v with
  | VNull => "null"
  | VStr s => s
  | VArr items =>
      JS.join ","
        (map (fun x => match x with VNull => "" | _ => toString x end) items)
  | VObj _ => "[object Object]"
  end.

Definition String_ (o : option value) : string :=
  match o with Some v => toString v | None => "undefined" end.

Definition dquote : string := String (ascii_of_nat 34) EmptyString.

Definition hex_digit (n : N) : ascii :=
  ascii_of_N (if (n <? 10)%N then 48 + n else 87 + n).

(** QuoteJSONString on one code unit. *)
Definition quote_char (c : ascii) : string :=
  let n := JS.code c in
  if (n =? 34)%N then "\" +:+ dquote
  else if (n =? 92)%N then "\\"
  else if (n =? 8)%N then "\b"
  else if (n =? 12)%N then "\f"
  else if (n =? 10)%N then "\n"
  else if (n =? 13)%N then "\r"
  else if (n =? 9)%N then "\t"
  else if (n <? 32)%N then
    "\u00" +:+ String (hex_digit (n / 16)) (String (hex_digit (n mod 16)) EmptyString)
  else String c EmptyString.

Fixpoint quote_body (s : string) : string :=
  match s with
  | EmptyString => EmptyString
  | String c r => quote_char c +:+ quote_body r
  end.

Definition quote (s : string) : string := dquote +:+ quote_body s +:+ dquote.

(** [JSON.stringify(v)] without indentation. *)
Fixpoint stringify (v : value) : string :=
  match v with
  | VNull => "null"
  | VStr s => quote s
  | VArr items => "[" +:+ JS.join "," (map stringify items) +:+ "]"
  | VObj props =>
      "{" +:+ JS.join "," (map (fun kv : string * value =>
                           quote (fst kv) +:+ ":" +:+ stringify (snd kv)) props)
          +:+ "}"
  end.

End Value.

(* ===================================================================== *)
(** ** types.ts *)
(* ===================================================================== *)

(** [TextMap]: artifact identifier to text, in key iteration order. *)
Definition TextMap : Type := list (string * string).

Record ResultRow : Type := {
  FieldName : string;
  FieldLabel : string;
  Description : string;
  FieldType : string;
  Formula : string;
  FieldLength : string;
  LookupRef : string;
  Required : string;
  HistoryTracking : string;
  PicklistValues : string;
  ControllingField : string;
  LastModifiedDate : string;
  Layouts : string;
  Flexipages : string;
  RecordTypes : string;
  References : string;
  ProfilesAndPermSets : string
}.

(* ===================================================================== *)
(** ** analysis/search.ts *)
(* ===================================================================== *)

Module Search.

Definition keys (m : TextMap) : list string := map fst m.

(** [containsField(m[k], f)]: an absent text is falsy, hence no match. *)
Definition containsAt (m : TextMap) (f k : string) : bool :=
  match Value.assoc k m with
  | Some text => Matchers.matches text f
  | None => false
  end.

Definition searchUsage (contentMap : TextMap) (needle : string) : string :=
  JS.join "; "
    (map fst (List.filter (fun e => Matchers.matches (snd e) needle) contentMap)).

(** One [for (const k of Object.keys(m)) if (...) refs.push(label k)]. *)
Definition scan (label : string) (m : TextMap) (f : string) : list string :=
  map (fun k => label +:+ k) (List.filter (containsAt m f) (keys m)).

Record Extras : Type := {
  x_lwc : option TextMap;
  x_aura : option TextMap;
  x_profiles : option TextMap;
  x_permsets : option TextMap
}.

Definition scan_extra (label : string) (extras : option Extras)
    (sel : Extras -> option TextMap) (f : string) : list string :=
  match extras with
  | Some x => match sel x with Some m => scan label m f | None => [] end
  | None => []
  end.

Definition collectReferences_list (apex flow vr dup report email : TextMap)
    (fieldName : string) (extras : option Extras) : list string :=
  scan "Apex: " apex fieldName
  ++ scan "Flow: " flow fieldName
  ++ scan "ValidationRule: " vr fieldName
  ++ scan "DuplicateRule: " dup fieldName
  ++ scan "Report: " report fieldName
  ++ scan "EmailTemplate: " email fieldName
  ++ scan_extra "LWC: " extras x_lwc fieldName
  ++ scan_extra "Aura: " extras x_aura fieldName
  ++ scan_extra "Profile: " extras x_profiles fieldName
  ++ scan_extra "PermSet: " extras x_permsets fieldName.

Definition newline : string := String (ascii_of_nat 10) EmptyString.

Definition collectReferences (apex flow vr dup report email : TextMap)
    (fieldName : string) (extras : option Extras) : string :=
  JS.join (";" +:+ newline)
    (collectReferences_list apex flow vr dup report email fieldName extras).

(** The [ProfilesAndPermSets] column, written out twice in the sources
    (fields.ts and standard.ts) with the same text:
    [Object.keys(m || {}).filter(k => m && m[k] && m[k].includes(name))
       .map(k => label + k)]. *)
Definition includesAt (m : TextMap) (name k : string) : bool :=
  match Value.assoc k m with
  | Some text => JS.truthy_str text && JS.includes text name
  | None => false
  end.

Definition accessRefs (label : string) (m : option TextMap) (name : string)
    : list string :=
  map (fun k => label +:+ k)
    (List.filter (includesAt (default [] m) name) (keys (default [] m))).

Definition profilesAndPermSets_list (profiles permsets : option TextMap)
    (name : string) : list string :=
  accessRefs "Profile: " profiles name ++ accessRefs "PermSet: " permsets name.

Definition profilesAndPermSets (profiles permsets : option TextMap)
    (name : string) : string :=
  JS.join (";" +:+ newline) (profilesAndPermSets_list profiles permsets name).

End Search.

(* ===================================================================== *)
(** ** analysis/fields.ts *)
(* ===================================================================== *)

Module Fields.
Import Value.

#[global] Instance result_ret : MRet result := fun A a => Ok a.
#[global] Instance result_bind : MBind result := fun A B f m =>
  match m with Ok a => f a | Throw e => Throw e end.

(** One turn of the path loop: [Ok None] is the early [return ""].
    [key in node] on a truthy node: a [TypeError] on a primitive string;
    an array has no element-name property; an object is looked up in its
    own properties. *)
Definition step (node : value) (key : string) : result (option value) :=
  if negb (truthy (Some node)) then Ok None
  else match node with
       | VStr s =>
           Throw (TypeError ("Cannot use 'in' operator to search for '"
                             +:+ key +:+ "' in " +:+ s))
       | VObj props => Ok (assoc key props)
       | _ => Ok None
       end.

Fixpoint walk (node : value) (pathChain : list string) : result (option value) :=
  match pathChain with
  | [] => Ok (Some node)
  | key :: rest =>
      r ← step node key;
      match r with
      | None => Ok None
      | Some node' => walk node' rest
      end
  end.

(** [typeof v === "string" ? v : JSON.stringify(v)] *)
Definition text_of (v : value) : string :=
  match v with VStr s => s | _ => stringify v end.

Definition readXmlFieldValue (obj : value) (pathChain : list string)
    : result string :=
  r ← walk obj pathChain;
  match r with
  | None => Ok ""
  | Some (VArr []) => Ok ""
  | Some (VArr (v :: _)) => Ok (text_of v)
  | Some node => Ok (text_of node)
  end.

Record Picklist : Type := { values : string; controlling : string }.

(** [v?.[key]?.[0]] *)
Definition first (o : option value) (key : string) : option value :=
  index0 (get o key).

(** [String(v?.fullName?.[0] ?? "")] *)
Definition value_name (v : value) : string :=
  match first (Some v) "fullName" with
  | None | Some VNull => ""
  | Some x => toString x
  end.

Definition getPicklistValues (customField : value) : Picklist :=
  let vs := first (Some customField) "valueSet" in
  if negb (truthy vs) then {| values := ""; controlling := "" |}
  else
    let definition := first vs "valueSetDefinition" in
    let controlling :=
      if truthy (get vs "controllingField")
      then String_ (index0 (get vs "controllingField")) else "" in
    let vals := get definition "value" in
    let names :=
      match vals with
      | Some (VArr ((_ :: _) as items)) =>
          List.filter JS.truthy_str (map value_name items)
      | _ => []
      end in
    match names with
    | _ :: _ => {| values := JS.join ", " names; controlling := controlling |}
    | [] =>
        let vsetName := first vs "valueSetName" in
        if truthy vsetName
        then {| values := String_ vsetName; controlling := controlling |}
        else {| values := ""; controlling := controlling |}
    end.

(** [x ? String(x) : ""] for [x = customField?.[key]?.[0]]. *)
Definition attr (customField : value) (key : string) : string :=
  let x := first (Some customField) key in
  if truthy x then String_ x else "".

Definition getFieldLength (customField : value) (fieldType : string) : string :=
  let t := JS.trim fieldType in
  if String.eqb t "Text" || String.eqb t "Html" || String.eqb t "LongTextArea"
  then attr customField "length"
  else if String.eqb t "Number" || String.eqb t "Currency"
          || String.eqb t "Currency "
  then
    let p := attr customField "precision" in
    let s := attr customField "scale" in
    JS.join ", " (List.filter JS.truthy_str [p; s])
  else "".

Record Maps : Type := {
  lastModified : gmap string string;
  apex : TextMap;
  flow : TextMap;
  vr : TextMap;
  dup : TextMap;
  layout : TextMap;
  recordType : TextMap;
  flexipage : TextMap;
  report : TextMap;
  email : TextMap;
  lwc : option TextMap;
  aura : option TextMap;
  profiles : option TextMap;
  permsets : option TextMap
}.

(** What every object literal inherits from [Object.prototype]: eleven
    functions, and the prototype itself under [__proto__].  The function
    under [constructor] is named [Object]; the others carry their key. *)
Definition inheritedFunctions : list string :=
  ["constructor"; "__defineGetter__"; "__defineSetter__"; "hasOwnProperty";
   "__lookupGetter__"; "__lookupSetter__"; "isPrototypeOf";
   "propertyIsEnumerable"; "toString"; "valueOf"; "toLocaleString"].

(** [String(x)] for the inherited value [x] under that key, if any. *)
Definition inheritedText (key : string) : option string :=
  if String.eqb key "__proto__" then Some "[object Object]"
  else if bool_decide (key ∈ inheritedFunctions)
  then Some ("function "
             +:+ (if String.eqb key "constructor" then "Object" else key)
             +:+ "() { [native code] }")
  else None.

(** [m[key] ?? ""] on the dictionary, an object literal: the value a
    record stored under the key, else what the object inherits under it,
    else the empty string.  A row column is kept as text: an inherited
    function or object stands in it as [String] shows it. *)
Definition lastModifiedOf (m : gmap string string) (key : string) : string :=
  match m !! key with
  | Some v => v
  | None => default "" (inheritedText key)
  end.

(** The body of the loop after the root check: one row, or the
    [TypeError] of a root element that is a bare string. *)
Definition buildRow (maps : Maps) (xml cf : value) : result ResultRow :=
  fieldName ← readXmlFieldValue xml ["CustomField"; "fullName"];
  fieldDesc ← readXmlFieldValue xml ["CustomField"; "description"];
  fieldTrack ← readXmlFieldValue xml ["CustomField"; "trackHistory"];
  fieldLabel ← readXmlFieldValue xml ["CustomField"; "label"];
  fieldType ← readXmlFieldValue xml ["CustomField"; "type"];
  fieldFormula ← readXmlFieldValue xml ["CustomField"; "formula"];
  let fieldLength := getFieldLength cf fieldType in
  lookupRef ← (if String.eqb fieldType "Lookup"
               then readXmlFieldValue xml ["CustomField"; "referenceTo"]
               else Ok "");
  required ← readXmlFieldValue xml ["CustomField"; "required"];
  let requiredRaw := JS.toLowerCase required in
  let isRequired := if String.eqb requiredRaw "true" then "TRUE" else "FALSE" in
  let pl := getPicklistValues cf in
  let lastMod := lastModifiedOf (lastModified maps) (JS.toLowerCase fieldName) in
  let layoutsUsed := Search.searchUsage (layout maps) fieldName in
  let recordTypesUsed := Search.searchUsage (recordType maps) fieldName in
  let flexipagesUsed := Search.searchUsage (flexipage maps) fieldName in
  let references :=
    Search.collectReferences (apex maps) (flow maps) (vr maps) (dup maps)
      (report maps) (email maps) fieldName
      (Some {| Search.x_lwc := lwc maps; Search.x_aura := aura maps;
               Search.x_profiles := None; Search.x_permsets := None |}) in
  let profilesAndPermSets :=
    Search.profilesAndPermSets (profiles maps) (permsets maps) fieldName in
  Ok {| FieldName := fieldName;
        FieldLabel := fieldLabel;
        Description := fieldDesc;
        FieldType := fieldType;
        Formula := fieldFormula;
        FieldLength := fieldLength;
        LookupRef := lookupRef;
        Required := isRequired;
        HistoryTracking := fieldTrack;
        PicklistValues := values pl;
        ControllingField := controlling pl;
        LastModifiedDate := lastMod;
        Layouts := layoutsUsed;
        Flexipages := flexipagesUsed;
        RecordTypes := recordTypesUsed;
        References := references;
        ProfilesAndPermSets := profilesAndPermSets |}.

(** *** The file system and the XML parser, as the function sees them *)

Record World : Type := {
  existsSync : string -> bool;
  fg : list string -> result (list string);
  readFile : string -> result string;
  parseStringPromise : string -> result value
}.

Inductive event : Type :=
| EvExists (path : string)
| EvGlob (patterns : list string)
| EvRead (path : string)
| EvParse (text : string)
| EvLog (msg : string) (verbose : bool).

(** Computations that record their calls and may throw. *)
Definition M (A : Type) : Type := list event -> list event * result A.

#[global] Instance M_ret : MRet M := fun A a tr => (tr, Ok a).
#[global] Instance M_bind : MBind M := fun A B f m tr =>
  match m tr with
  | (tr', Ok a) => f a tr'
  | (tr', Throw e) => (tr', Throw e)
  end.

Definition throw {A : Type} (e : exn) : M A := fun tr => (tr, Throw e).
Definition call {A : Type} (ev : event) (r : result A) : M A :=
  fun tr => (tr ++ [ev], r).
Definition lift {A : Type} (r : result A) : M A := fun tr => (tr, r).

Definition is_sep (c : ascii) : bool := Ascii.eqb c "/" || Ascii.eqb c "\".

(** [p.split(/[\\/]/)] *)
Fixpoint split_path (p : string) : list string :=
  match p with
  | EmptyString => [""]
  | String c r =>
      if is_sep c then "" :: split_path r
      else match split_path r with
           | h :: t => String c h :: t
           | [] => [String c ""]
           end
  end.

(** [`${segments.slice(-2, -1)[0]}`] *)
Definition parent_segment (p : string) : string :=
  match rev (split_path p) with
  | _ :: x :: _ => x
  | _ => "undefined"
  end.

(** utils/pathing.ts: [p.replace(/\\/g, "/")] *)
Fixpoint toPosix (p : string) : string :=
  match p with
  | EmptyString => EmptyString
  | String c r => String (if Ascii.eqb c "\" then "/"%char else c) (toPosix r)
  end.

Definition notFoundMessage (objectFieldsPath : string) : string :=
  "Fields folder not found: " +:+ objectFieldsPath +:+ "." +:+ Search.newline
  +:+ "Check --repoRoot is correct and that '" +:+ parent_segment objectFieldsPath
  +:+ "' exists under 'objects/'.".

Definition noFilesMessage (objectFieldsPath : string) : string :=
  "No field metadata files found for object at: " +:+ objectFieldsPath +:+ "."
  +:+ Search.newline
  +:+ "Verify the object API name and the repo root (try --repoRoot "
  +:+ dquote +:+ ".../force-app/main/default" +:+ dquote +:+ ").".

Definition decimal (n : nat) : string := NilZero.string_of_uint (Nat.to_uint n).

(** [`${toPosix(objectFieldsPath)}/**/*.field-meta.xml`] *)
Definition fieldGlob (objectFieldsPath : string) : string :=
  toPosix objectFieldsPath +:+ "/**/*.field-meta.xml".

Definition discoveredMessage (n : nat) (glob : string) : string :=
  "Discovered " +:+ decimal n +:+ " field files using glob: " +:+ glob.

(** The [for (const file of fieldFiles)] loop, [results] threaded. *)
Fixpoint loop (w : World) (maps : Maps) (fieldFiles : list string)
    (results : list ResultRow) : M (list ResultRow) :=
  match fieldFiles with
  | [] => mret results
  | file :: rest =>
      xmlText ← call (EvRead file) (readFile w file);
      xml ← call (EvParse xmlText) (parseStringPromise w xmlText);
      let cf := get (Some xml) "CustomField" in
      match cf with
      | Some cfv =>
          if negb (truthy cf) then loop w maps rest results
          else
            row ← lift (buildRow maps xml cfv);
            loop w maps rest (results ++ [row])
      | None => loop w maps rest results
      end
  end.

Definition processFields (w : World) (objectFieldsPath : string) (maps : Maps)
    (verbose : bool) : M (list ResultRow) :=
  found ← call (EvExists objectFieldsPath) (Ok (existsSync w objectFieldsPath));
  if negb found then throw (Error (notFoundMessage objectFieldsPath))
  else
    let fieldGlob := fieldGlob objectFieldsPath in
    fieldFiles ← call (EvGlob [fieldGlob]) (fg w [fieldGlob]);
    _ ← call (EvLog (discoveredMessage (length fieldFiles) fieldGlob) verbose)
             (Ok ());
    match fieldFiles with
    | [] => throw (Error (noFilesMessage objectFieldsPath))
    | _ :: _ => loop w maps fieldFiles []
    end.

End Fields.

(* ===================================================================== *)
(** ** analysis/standard.ts *)
(* ===================================================================== *)

Module Standard.

Record FieldDef : Type := { QualifiedApiName : string; DataType : string }.

Record Maps : Type := {
  apex : TextMap;
  flow : TextMap;
  vr : TextMap;
  dup : TextMap;
  report : TextMap;
  email : TextMap;
  layout : TextMap;
  recordType : TextMap;
  flexipage : TextMap;
  lwc : option TextMap;
  aura : option TextMap;
  profiles : option TextMap;
  permsets : option TextMap
}.

(** The row pushed for a definition that passes both guards. *)
Definition standardRow (maps : Maps) (def : FieldDef) : ResultRow :=
  let name := QualifiedApiName def in
  let layoutsUsed := Search.searchUsage (layout maps) name in
  let recordTypesUsed := Search.searchUsage (recordType maps) name in
  let flexipagesUsed := Search.searchUsage (flexipage maps) name in
  let references :=
    Search.collectReferences (apex maps) (flow maps) (vr maps) (dup maps)
      (report maps) (email maps) name
      (Some {| Search.x_lwc := lwc maps; Search.x_aura := aura maps;
               Search.x_profiles := profiles maps;
               Search.x_permsets := permsets maps |}) in
  let profilesAndPermSets :=
    Search.profilesAndPermSets (profiles maps) (permsets maps) name in
  {| FieldName := name;
     FieldLabel := "";
     Description := "";
     FieldType := DataType def;
     Formula := "";
     FieldLength := "";
     LookupRef := "";
     Required := "FALSE";
     HistoryTracking := "";
     PicklistValues := "";
     ControllingField := "";
     LastModifiedDate := "";
     Layouts := layoutsUsed;
     Flexipages := flexipagesUsed;
     RecordTypes := recordTypesUsed;
     References := references;
     ProfilesAndPermSets := profilesAndPermSets |}.

(** [new Set(existingRows.map((r) => r.FieldName.toLowerCase()))] *)
Definition existingNames (existingRows : list ResultRow) : gset string :=
  list_to_set (map (fun r => JS.toLowerCase (FieldName r)) existingRows).

(** One iteration of [for (const def of fieldDefs)]. *)
Definition mergeStep (names : gset string) (maps : Maps)
    (merged : list ResultRow) (def : FieldDef) : list ResultRow :=
  let name := QualifiedApiName def in
  if negb (JS.truthy_str name) then merged
  else if bool_decide (JS.toLowerCase name ∈ names) then merged
  else merged ++ [standardRow maps def].

Definition mergeStandardFields (existingRows : list ResultRow)
    (fieldDefs : list FieldDef) (maps : Maps) : list ResultRow :=
  let names := existingNames existingRows in
  fold_left (mergeStep names maps) fieldDefs existingRows.

End Standard.

(* ===================================================================== *)
(** ** Specification-side notions *)
(* ===================================================================== *)

Module Spec.

(** "Ignoring case": equal once both sides are lower-cased. *)
Definition same_ignoring_case (a b : string) : Prop :=
  JS.toLowerCase a = JS.toLowerCase b.

Fixpoint last_char (s : string) : option ascii :=
  match s with
  | EmptyString => None
  | String c r => match last_char r with Some d => Some d | None => Some c end
  end.

(** A word boundary lies between two neighbouring positions when exactly
    one of them holds a word character (the ends of the text hold none). *)
Definition word_boundary (l r : option ascii) : Prop :=
  RegExp.is_word_at l <> RegExp.is_word_at r.

(** The identifier occurs in the text, ignoring case, with a word
    boundary just before and just after the occurrence. *)
Definition whole_word_occurrence (text ident : string) : Prop :=
  exists pre mid post,
    text = pre +:+ mid +:+ post
    /\ same_ignoring_case mid ident
    /\ word_boundary (last_char pre) (RegExp.head_char (mid +:+ post))
    /\ word_boundary (last_char (pre +:+ mid)) (RegExp.head_char post).

(** The documents a run has read so far. *)
Definition documents_read (tr : list Fields.event) : list string :=
  omap (fun ev => match ev with Fields.EvRead p => Some p | _ => None end) tr.

(** A document lacks the expected root element when [CustomField] is
    absent or empty. *)
Definition has_root (xml : Value.value) : bool :=
  Value.truthy (Value.get (Some xml) "CustomField").

(** The root element has content of its own (child elements), not bare text. *)
Definition root_is_element (xml : Value.value) : Prop :=
  match Value.get (Some xml) "CustomField" with
  | Some (Value.VStr (String _ _)) => False
  | _ => True
  end.

(** The file is read and parsed without error, giving [xml]. *)
Definition parses_to (w : Fields.World) (file : string) (xml : Value.value) : Prop :=
  exists text,
    Fields.readFile w file = Value.Ok text
    /\ Fields.parseStringPromise w text = Value.Ok xml.

(** The first child element of that name, if the node has one. *)
Definition first_child (node : option Value.value) (name : string)
    : option Value.value :=
  match Value.get node name with
  | Some children => Value.index0 (Some children)
  | None => None
  end.

(** The text of an element; a missing or null element has none. *)
Definition text_of_element (e : option Value.value) : string :=
  match e with
  | Some Value.VNull | None => ""
  | Some v => Value.toString v
  end.

(** The value-set element of a field, and what the picklist rule reads
    under it: the names of the value elements listed under the value-set
    definition (a value element without a name lists none), and the
    reference to a shared value set. *)
Definition value_set (cf : Value.value) : option Value.value :=
  first_child (Some cf) "valueSet".

Fixpoint names_of (items : list Value.value) : list string :=
  match items with
  | [] => []
  | item :: rest =>
      match text_of_element (first_child (Some item) "fullName") with
      | EmptyString => names_of rest
      | name => name :: names_of rest
      end
  end.

Definition literal_value_names (cf : Value.value) : list string :=
  match Value.get (first_child (value_set cf) "valueSetDefinition") "value" with
  | Some (Value.VArr items) => names_of items
  | _ => []
  end.

Definition shared_value_set_name (cf : Value.value) : option Value.value :=
  first_child (value_set cf) "valueSetName".

Definition controlling_field (cf : Value.value) : string :=
  match Value.get (value_set cf) "controllingField" with
  | Some v => if Value.truthy (Some v) then Value.String_ (Value.index0 (Some v)) else ""
  | None => ""
  end.

(** Precision and scale, joined when both are present. *)
Definition precision_scale (p s : string) : string :=
  if String.eqb p "" then s
  else if String.eqb s "" then p
  else p +:+ ", " +:+ s.

(** The pattern a literal identifier stands for. *)
Fixpoint literal (s : string) : list RegExp.term :=
  match s with
  | EmptyString => []
  | String c r => RegExp.PatternChar c :: literal r
  end.

(** The text as the case-insensitive matcher compares it. *)
Fixpoint canon_str (ic : bool) (s : string) : string :=
  match s with
  | EmptyString => EmptyString
  | String c r => String (RegExp.canonicalize ic c) (canon_str ic r)
  end.

(** The code unit just before the position reached after [s]. *)
Definition last_or (prev : option ascii) (s : string) : option ascii :=
  match last_char s with Some c => Some c | None => prev end.


(** What one parsed document adds to the result: nothing when it lacks the
    root element, otherwise exactly the row built from it. *)
Definition doc_rows (maps : Fields.Maps) (xml : Value.value)
    (rows : list ResultRow) : Prop :=
  if has_root xml
  then exists cf row,
         Value.get (Some xml) "CustomField" = Some cf
         /\ Fields.buildRow maps xml cf = Value.Ok row /\ rows = [row]
  else rows = [].

(** The loop of the merger pushes a row for this definition. *)
Definition pushes (names : gset string) (def : Standard.FieldDef) : bool :=
  JS.truthy_str (Standard.QualifiedApiName def)
  && negb (bool_decide (JS.toLowerCase (Standard.QualifiedApiName def) ∈ names)).

(** Some row already carries this name, up to case. *)
Definition name_taken (rows : list ResultRow) (name : string) : Prop :=
  exists r, r ∈ rows /\ same_ignoring_case name (FieldName r).

(** Pairwise distinct, up to case. *)
Definition distinct_ignoring_case (names : list string) : Prop :=
  NoDup (map JS.toLowerCase names).

(** The corpora of a local run as [run] hands them to the merger: the
    same thirteen maps, without the last-modified dictionary. *)
Definition corpora (fm : Fields.Maps) : Standard.Maps :=
  {| Standard.apex := Fields.apex fm; Standard.flow := Fields.flow fm;
     Standard.vr := Fields.vr fm; Standard.dup := Fields.dup fm;
     Standard.report := Fields.report fm; Standard.email := Fields.email fm;
     Standard.layout := Fields.layout fm;
     Standard.recordType := Fields.recordType fm;
     Standard.flexipage := Fields.flexipage fm;
     Standard.lwc := Fields.lwc fm; Standard.aura := Fields.aura fm;
     Standard.profiles := Fields.profiles fm;
     Standard.permsets := Fields.permsets fm |}.

(** No text of the corpus (none, when the corpus is absent) holds the
    name as a whole word. *)
Definition unmentioned (m : option TextMap) (name : string) : Prop :=
  forall k text,
    Value.assoc k (default [] m) = Some text -> Matchers.matches text name = false.

End Spec.

(* ===================================================================== *)
(** ** Sample repositories *)
(* ===================================================================== *)

Module Examples.
Import Value.

Definition element (name text : string) : string * value :=
  (name, VArr [VStr text]).

(** A picklist field with two literal values. *)
Definition priority_cf : value :=
  VObj [element "fullName" "Priority__c";
        element "type" "Picklist";
        ("valueSet",
         VArr [VObj [("valueSetDefinition",
                      VArr [VObj [("value",
                                   VArr [VObj [element "fullName" "High"];
                                         VObj [element "fullName" "Low"]])]])]])].
Definition priority_doc : value := VObj [("CustomField", priority_cf)].

(** A text field whose type element carries a trailing blank. *)
Definition padded_cf : value :=
  VObj [element "fullName" "Note__c"; element "type" "Text "; element "length" "80"].
Definition padded_doc : value := VObj [("CustomField", padded_cf)].

(** A currency field, and a field naming a shared value set. *)
Definition amount_cf : value :=
  VObj [element "fullName" "Amount__c"; element "type" "Currency";
        element "precision" "18"; element "scale" "2"; element "length" "7"].
Definition amount_doc : value := VObj [("CustomField", amount_cf)].

Definition region_cf : value :=
  VObj [element "fullName" "Region__c"; element "type" "Picklist";
        ("valueSet", VArr [VObj [element "controllingField" "Country__c";
                                 element "valueSetName" "Regions"]])].
Definition region_doc : value := VObj [("CustomField", region_cf)].

(** A picklist with two named values and an unnamed one, that also names
    a shared value set and a controlling field. *)
Definition tier_cf : value :=
  VObj [element "fullName" "Tier__c"; element "type" "Picklist";
        ("valueSet",
         VArr [VObj [element "controllingField" "Segment__c";
                     ("valueSetDefinition",
                      VArr [VObj [("value",
                                   VArr [VObj [element "fullName" "Gold"];
                                         VObj [element "label" "Unnamed"];
                                         VObj [element "fullName" "Silver"]])]]);
                     element "valueSetName" "Tiers"]])].
Definition tier_doc : value := VObj [("CustomField", tier_cf)].

Definition balance_cf : value :=
  VObj [element "fullName" "Balance__c"; element "type" "Currency"].
Definition balance_doc : value := VObj [("CustomField", balance_cf)].

(** Documents without the root element: another root, and an empty root. *)
Definition other_doc : value := VObj [("CustomObject", VObj [])].
Definition empty_root_doc : value := VObj [("CustomField", VStr "")].

Definition profileText : string := "<field>Case.AccountBalance__c</field>".
Definition permsetText : string := "<field>Case.balance__c</field>".

Definition fieldMaps : Fields.Maps :=
  {| Fields.lastModified := {[ "priority__c" := "2024-05-01" ]};
     Fields.apex := []; Fields.flow := []; Fields.vr := []; Fields.dup := [];
     Fields.layout := [("Case-Support.layout-meta.xml", "<field>Priority__c</field>")];
     Fields.recordType := []; Fields.flexipage := [];
     Fields.report := []; Fields.email := [];
     Fields.lwc := None; Fields.aura := None;
     Fields.profiles := Some [("Admin.profile-meta.xml", profileText)];
     Fields.permsets := Some [("Support.permissionset-meta.xml", permsetText)] |}.

Definition emptyMaps : Standard.Maps :=
  {| Standard.apex := []; Standard.flow := []; Standard.vr := [];
     Standard.dup := []; Standard.report := []; Standard.email := [];
     Standard.layout := []; Standard.recordType := []; Standard.flexipage := [];
     Standard.lwc := None; Standard.aura := None;
     Standard.profiles := None; Standard.permsets := None |}.

Definition accessMaps : Standard.Maps :=
  {| Standard.apex := []; Standard.flow := []; Standard.vr := [];
     Standard.dup := []; Standard.report := []; Standard.email := [];
     Standard.layout := []; Standard.recordType := []; Standard.flexipage := [];
     Standard.lwc := None; Standard.aura := None;
     Standard.profiles := Some [("Admin.profile-meta.xml", profileText)];
     Standard.permsets := Some [("Support.permissionset-meta.xml", permsetText)] |}.

Definition fieldsPath : string := "repo/objects/Case/fields".

(** A file system where every file holds its own name as text, and a
    parser that knows the sample documents by that text. *)
Definition parseSample (text : string) : result value :=
  if String.eqb text "Priority__c" then Ok priority_doc
  else if String.eqb text "Other" then Ok other_doc
  else if String.eqb text "Empty" then Ok empty_root_doc
  else if String.eqb text "Balance__c" then Ok balance_doc
  else Throw (Rejected "Unclosed root tag").

Definition world (found : bool) (files : list string) : Fields.World :=
  {| Fields.existsSync := fun _ => found;
     Fields.fg := fun _ => Ok files;
     Fields.readFile := fun path => Ok path;
     Fields.parseStringPromise := parseSample |}.

Definition statusRow : ResultRow :=
  Standard.standardRow emptyMaps
    {| Standard.QualifiedApiName := "Status__c"; Standard.DataType := "Picklist" |}.

(** A repository where a class and a layout use the priority field, and
    the access-control corpora do not name it. *)
Definition usageMaps : Fields.Maps :=
  {| Fields.lastModified := ∅;
     Fields.apex := [("PriorityService.cls", "c.Priority__c = 'High';")];
     Fields.flow := []; Fields.vr := []; Fields.dup := [];
     Fields.layout := [("Case-Support.layout-meta.xml", "<field>Priority__c</field>")];
     Fields.recordType := []; Fields.flexipage := [];
     Fields.report := []; Fields.email := [];
     Fields.lwc := Some [("priorityBadge.js", "import PRIORITY from 'Case.Priority__c';")];
     Fields.aura := None;
     Fields.profiles := Some [("Admin.profile-meta.xml", profileText)];
     Fields.permsets := Some [("Support.permissionset-meta.xml", permsetText)] |}.

End Examples.

(* ===================================================================== *)
(** ** Calls to the outside, recorded *)
(* ===================================================================== *)

Module IO.
Import Value.

Inductive event : Type :=
| ExistsSync (path : string)
| ReadFileSync (path : string)
| CsvParse (text : string)
| ExecFile (file : string) (args : list string)
| ConsoleLog (msg : string)
| ConsoleWarn (msg : string)
| LogInfo (msg : string) (verbose : bool)
| Unlink (path : string)
| WriteFile (path content : string).

Definition M (A : Type) : Type := list event -> list event * result A.

#[global] Instance M_ret : MRet M := fun A a tr => (tr, Ok a).
#[global] Instance M_bind : MBind M := fun A B f m tr =>
  match m tr with
  | (tr', Ok a) => f a tr'
  | (tr', Throw e) => (tr', Throw e)
  end.

Definition call {A : Type} (ev : event) (r : result A) : M A :=
  fun tr => (tr ++ [ev], r).

Definition emit (ev : event) : M unit := call ev (Ok ()).

(** [try { m } catch (err) { h err }] *)
Definition try_catch {A : Type} (m : M A) (h : exn -> M A) : M A :=
  fun tr =>
    match m tr with
    | (tr', Ok a) => (tr', Ok a)
    | (tr', Throw e) => h e tr'
    end.

(** [err.message] *)
Definition message (e : exn) : string :=
  match e with TypeError m | Error m | Rejected m => m end.

(** A CSV record parsed with [columns: true]: header name to cell. *)
Definition Record_ : Type := list (string * string).
Definition CsvParser : Type := string -> result (list Record_).

(** [String(row[column] ?? "").trim()] *)
Definition column (row : Record_) (name : string) : string :=
  JS.trim (default "" (assoc name row)).

End IO.

(* ===================================================================== *)
(** ** sf/exec.ts *)
(* ===================================================================== *)

Module Exec.
Import Value IO.

(** What the [execFile] callback receives. *)
Record Outcome : Type := {
  error : option string;
  stdout : string;
  stderr : string
}.

Record Process : Type := {
  platform : string;
  execFile : string -> list string -> Outcome
}.

Fixpoint has_space (a : string) : bool :=
  match a with
  | EmptyString => false
  | String c r => JS.is_space c || has_space r
  end.

(** An argument holding white space is shown between double quotes. *)
Definition shown (a : string) : string :=
  if has_space a then dquote +:+ a +:+ dquote else a.

(** [a || b] on strings. *)
Definition or_else (a b : string) : string :=
  if JS.truthy_str a then a else b.

(** The callback: reject with the wrapped message, or resolve with stdout. *)
Definition settle (o : Outcome) : result string :=
  match error o with
  | Some msg =>
      Throw (Error ("Salesforce CLI failed. "
                    +:+ JS.trim (or_else (or_else (stderr o) msg) "")))
  | None => Ok (stdout o)
  end.

Definition chooseBin (sfPath : option string) : string :=
  match sfPath with
  | Some p =>
      if JS.truthy_str p && (0 <? String.length (JS.trim p))%nat then p else "sf"
  | None => "sf"
  end.

Definition execSfStdout (p : Process) (args : list string) (verbose : bool)
    (sfPath : option string) : M string :=
  let isWin := String.eqb (platform p) "win32" in
  let bin := chooseBin sfPath in
  if isWin then
    let cmdArgs := "/c" :: bin :: args in
    _ ← (if verbose
         then emit (ConsoleLog ("Running (Windows): cmd.exe "
                                +:+ JS.join " " (map shown cmdArgs)))
         else mret ());
    call (ExecFile "cmd.exe" cmdArgs) (settle (execFile p "cmd.exe" cmdArgs))
  else
    _ ← (if verbose
         then emit (ConsoleLog ("Running (*nix): " +:+ bin +:+ " "
                                +:+ JS.join " " (map shown args)))
         else mret ());
    call (ExecFile bin args) (settle (execFile p bin args)).

End Exec.

(* ===================================================================== *)
(** ** analysis/standard.ts: the remote inventory *)
(* ===================================================================== *)

Module Fetch.
Import Value IO.

Definition fieldDefinitionQuery (objectName : string) : string :=
  "SELECT QualifiedApiName, DataType FROM FieldDefinition WHERE EntityDefinition.QualifiedApiName='"
  +:+ objectName +:+ "'".

Definition queryArgs (orgAlias q : string) : list string :=
  ["data"; "query"; "--use-tooling-api"; "--target-org"; orgAlias;
   "--query"; q; "--result-format"; "csv"].

(** [rows.map((r) => ({ QualifiedApiName: ..., DataType: ... }))] *)
Definition toFieldDef (r : Record_) : Standard.FieldDef :=
  {| Standard.QualifiedApiName := column r "QualifiedApiName";
     Standard.DataType := column r "DataType" |}.

Definition fetchFieldDefinitions (p : Exec.Process) (parse : CsvParser)
    (orgAlias objectName : string) (verbose : bool) (sfPath : option string)
    : M (list Standard.FieldDef) :=
  let q := fieldDefinitionQuery objectName in
  let args := queryArgs orgAlias q in
  stdout ← Exec.execSfStdout p args verbose sfPath;
  rows ← call (CsvParse stdout) (parse stdout);
  mret (map toFieldDef rows).

End Fetch.

(* ===================================================================== *)
(** ** run.ts *)
(* ===================================================================== *)

Module Run.
Import Value IO.

Record FileSystem : Type := {
  existsSync : string -> bool;
  readFileSync : string -> result string
}.

(** [map[key] = v] on an object literal: the key ["__proto__"] reaches the
    prototype setter, which ignores a string, and stores nothing. *)
Definition assign (m : gmap string string) (key v : string) : gmap string string :=
  if String.eqb key "__proto__" then m else <[key := v]> m.

(** One turn of [for (const row of records)]. *)
Definition addRecord (m : gmap string string) (row : Record_) : gmap string string :=
  let devName := column row "DeveloperName" in
  let lastMod := column row "LastModifiedDate" in
  if negb (JS.truthy_str devName) then m
  else
    let m1 := assign m (JS.toLowerCase devName) lastMod in
    assign m1 (JS.toLowerCase (devName +:+ "__c")) lastMod.

Definition buildLastModifiedMap (fs : FileSystem) (parse : CsvParser)
    (tempCsv : string) (verbose : bool) : M (gmap string string) :=
  found ← call (ExistsSync tempCsv) (Ok (existsSync fs tempCsv));
  if negb found then
    _ ← emit (LogInfo ("No LastModified CSV found at " +:+ tempCsv
                       +:+ "; continuing without LastModified dates.") verbose);
    mret ∅
  else
    raw ← call (ReadFileSync tempCsv) (readFileSync fs tempCsv);
    records ← call (CsvParse raw) (parse raw);
    let m := fold_left addRecord records ∅ in
    _ ← emit (LogInfo ("Fetched " +:+ Fields.decimal (length records)
                       +:+ " field entries for LastModifiedDate from Salesforce.")
                verbose);
    mret m.

(** The [if (includeStandard) { try { ... } catch (err) { ... } }] block of
    [run], from the local rows to the rows handed to the exporters. *)
Definition includeStandardFields (p : Exec.Process) (parse : CsvParser)
    (objectName orgAlias : string) (verbose includeStandard : bool)
    (results : list ResultRow) (maps : Standard.Maps) : M (list ResultRow) :=
  if includeStandard then
    try_catch
      (_ ← emit (LogInfo "Fetching FieldDefinition for standard fields..." verbose);
       let q := Fetch.fieldDefinitionQuery objectName in
       let args := Fetch.queryArgs orgAlias q in
       stdout ← Exec.execSfStdout p args verbose None;
       rows ← call (CsvParse stdout) (parse stdout);
       let defs := map Fetch.toFieldDef rows in
       let results' := Standard.mergeStandardFields results defs maps in
       _ ← emit (LogInfo ("Merged " +:+ Fields.decimal (length defs)
                          +:+ " standard fields (deduped against local metadata).")
                   verbose);
       mret results')
      (fun err =>
         _ ← emit (ConsoleWarn ("Warning: Failed to fetch FieldDefinition. "
                                +:+ message err));
         mret results)
  else mret results.

End Run.

(* ===================================================================== *)
(** ** exporters/csv.ts *)
(* ===================================================================== *)

Module Csv.
Import Value IO.

Record Files : Type := {
  unlink : string -> result unit;
  writeFile : string -> string -> result unit
}.

(** [Object.keys] of a row, as both builders lay it out. *)
Definition rowKeys : list string :=
  ["FieldName"; "FieldLabel"; "Description"; "FieldType"; "Formula";
   "FieldLength"; "LookupRef"; "Required"; "HistoryTracking"; "PicklistValues";
   "ControllingField"; "LastModifiedDate"; "Layouts"; "Flexipages";
   "RecordTypes"; "References"; "ProfilesAndPermSets"].

(** [Object.keys] of the fallback literal. *)
Definition fallbackKeys : list string :=
  ["FieldName"; "FieldLabel"; "Description"; "FieldType"; "Formula";
   "FieldLength"; "LookupRef"; "Required"; "HistoryTracking"; "PicklistValues";
   "ControllingField"; "LastModifiedDate"; "Layouts"; "Flexipages";
   "RecordTypes"; "References"].

(** [r[h]] *)
Definition prop (r : ResultRow) (h : string) : option string :=
  assoc h
    [("FieldName", FieldName r); ("FieldLabel", FieldLabel r);
     ("Description", Description r); ("FieldType", FieldType r);
     ("Formula", Formula r); ("FieldLength", FieldLength r);
     ("LookupRef", LookupRef r); ("Required", Required r);
     ("HistoryTracking", HistoryTracking r); ("PicklistValues", PicklistValues r);
     ("ControllingField", ControllingField r);
     ("LastModifiedDate", LastModifiedDate r); ("Layouts", Layouts r);
     ("Flexipages", Flexipages r); ("RecordTypes", RecordTypes r);
     ("References", References r);
     ("ProfilesAndPermSets", ProfilesAndPermSets r)].

(** The [replace] that doubles every double quote of a cell. *)
Fixpoint doubleQuotes (s : string) : string :=
  match s with
  | EmptyString => EmptyString
  | String c r =>
      if (JS.code c =? 34)%N then String c (String c (doubleQuotes r))
      else String c (doubleQuotes r)
  end.

Definition cell (s : string) : string := dquote +:+ doubleQuotes s +:+ dquote.

Definition headersOf (rows : list ResultRow) : list string :=
  match rows with
  | r :: _ => rowKeys
  | [] => fallbackKeys
  end.

Definition line (headers : list string) (r : ResultRow) : string :=
  JS.join "," (map (fun h => cell (default "" (prop r h))) headers).

Definition lines (rows : list ResultRow) : list string :=
  let headers := headersOf rows in
  JS.join "," headers :: map (line headers) rows.

(** [lines.join("\n")] *)
Definition content (rows : list ResultRow) : string :=
  JS.join Search.newline (lines rows).

Definition exportToCsv (fs : Files) (rows : list ResultRow) (outputCsv : string)
    (verbose : bool) : M unit :=
  _ ← try_catch (call (Unlink outputCsv) (unlink fs outputCsv)) (fun _ => mret ());
  _ ← call (WriteFile outputCsv (content rows)) (writeFile fs outputCsv (content rows));
  emit (LogInfo ("CSV file generated at: " +:+ outputCsv) verbose).

End Csv.

(* ===================================================================== *)
(** ** Further specification-side notions *)
(* ===================================================================== *)

Module Notions.

(** Two pattern terms that the case-insensitive matcher cannot tell apart. *)
Inductive term_eqv : RegExp.term -> RegExp.term -> Prop :=
| eqv_boundary : term_eqv RegExp.WordBoundary RegExp.WordBoundary
| eqv_char c c' :
    RegExp.upper_char c = RegExp.upper_char c' ->
    term_eqv (RegExp.PatternChar c) (RegExp.PatternChar c').

(** A name of ASCII characters only, as field API names are. *)
Fixpoint is_ascii (s : string) : bool :=
  match s with
  | EmptyString => true
  | String c r => (JS.code c <? 128)%N && is_ascii r
  end.

(** Equal up to the case of the letters A to Z: every other character
    has to be the same on both sides. *)
Definition fold_ascii_char (c : ascii) : ascii :=
  if JS.between 65 90 c then JS.shift_up c else c.

Fixpoint fold_ascii (s : string) : string :=
  match s with
  | EmptyString => EmptyString
  | String c r => String (fold_ascii_char c) (fold_ascii r)
  end.

Definition same_up_to_ascii_case (a b : string) : Prop :=
  fold_ascii a = fold_ascii b.

(** The ways one document makes the loop throw [e]: the read fails, the
    parser rejects the text, or the root element is bare text. *)
Definition doc_fails (w : Fields.World) (file : string) (e : Value.exn) : Prop :=
  Fields.readFile w file = Value.Throw e
  \/ (exists text,
        Fields.readFile w file = Value.Ok text
        /\ Fields.parseStringPromise w text = Value.Throw e)
  \/ (exists text xml c s,
        Fields.readFile w file = Value.Ok text
        /\ Fields.parseStringPromise w text = Value.Ok xml
        /\ Value.get (Some xml) "CustomField" = Some (Value.VStr (String c s))
        /\ e = Value.TypeError
                 ("Cannot use 'in' operator to search for 'fullName' in "
                  +:+ String c s)).

(** No path separator occurs in the segment. *)
Fixpoint plain_segment (s : string) : bool :=
  match s with
  | EmptyString => true
  | String c r => negb (Fields.is_sep c) && plain_segment r
  end.

(** The record stores its date under this key. *)
Definition writes (row : IO.Record_) (key : string) : Prop :=
  IO.column row "DeveloperName" <> ""
  /\ key <> "__proto__"
  /\ (key = JS.toLowerCase (IO.column row "DeveloperName")
      \/ key = JS.toLowerCase (IO.column row "DeveloperName" +:+ "__c")).

(** The processes a run has spawned, and the texts it gave the CSV parser. *)
Definition spawned (tr : list IO.event) : list (string * list string) :=
  omap (fun ev => match ev with IO.ExecFile f a => Some (f, a) | _ => None end) tr.

Definition csv_parsed (tr : list IO.event) : list string :=
  omap (fun ev => match ev with IO.CsvParse t => Some t | _ => None end) tr.

Definition warnings (tr : list IO.event) : list string :=
  omap (fun ev => match ev with IO.ConsoleWarn m => Some m | _ => None end) tr.

(** *** Reading a CSV text back: records of cells. *)
Inductive csv_mode : Type := AtStart | InPlain | InQuoted | AfterQuote.

(** The cell being read is the first one of the first record. *)
Definition add_prefix (s : string) (recs : list (list string)) : list (list string) :=
  match recs with
  | (f :: fs) :: rs => ((s +:+ f) :: fs) :: rs
  | _ => recs
  end.

Definition new_field (recs : list (list string)) : list (list string) :=
  match recs with
  | r :: rs => ("" :: r) :: rs
  | [] => []
  end.

Definition new_record (recs : list (list string)) : list (list string) :=
  [""] :: recs.

Fixpoint decode_from (m : csv_mode) (s : string) : option (list (list string)) :=
  match s with
  | EmptyString =>
      match m with InQuoted => None | _ => Some [[""]] end
  | String c r =>
      let n := JS.code c in
      match m with
      | InQuoted =>
          if (n =? 34)%N then decode_from AfterQuote r
          else add_prefix (String c "") <$> decode_from InQuoted r
      | AfterQuote =>
          if (n =? 34)%N then add_prefix (String c "") <$> decode_from InQuoted r
          else if (n =? 44)%N then new_field <$> decode_from AtStart r
          else if (n =? 10)%N then new_record <$> decode_from AtStart r
          else None
      | AtStart =>
          if (n =? 34)%N then decode_from InQuoted r
          else if (n =? 44)%N then new_field <$> decode_from AtStart r
          else if (n =? 10)%N then new_record <$> decode_from AtStart r
          else add_prefix (String c "") <$> decode_from InPlain r
      | InPlain =>
          if (n =? 34)%N then None
          else if (n =? 44)%N then new_field <$> decode_from AtStart r
          else if (n =? 10)%N then new_record <$> decode_from AtStart r
          else add_prefix (String c "") <$> decode_from InPlain r
      end
  end.

Definition decode (s : string) : option (list (list string)) := decode_from AtStart s.

(** A header name: not empty, and free of quotes, commas and line feeds. *)
Fixpoint plain_text (s : string) : bool :=
  match s with
  | EmptyString => true
  | String c r =>
      negb (JS.code c =? 34)%N && negb (JS.code c =? 44)%N
      && negb (JS.code c =? 10)%N && plain_text r
  end.

Definition plain_name (s : string) : bool := JS.truthy_str s && plain_text s.

(** The cells of a row under the given headers. *)
Definition cells (headers : list string) (r : ResultRow) : list string :=
  map (fun h => default "" (Csv.prop r h)) headers.

(** The texts written by a run. *)
Definition written (tr : list IO.event) : list (string * string) :=
  omap (fun ev => match ev with IO.WriteFile p c => Some (p, c) | _ => None end) tr.

End Notions.

(* ===================================================================== *)
(** ** Sample runs *)
(* ===================================================================== *)

Module Samples.
Import Value Examples.

(** A lookup field that is required. *)
Definition owner_cf : value :=
  VObj [element "fullName" "Owner__c"; element "type" "Lookup";
        element "referenceTo" "Account"; element "required" "True"].
Definition owner_doc : value := VObj [("CustomField", owner_cf)].

(** The last-modified CSV, as parsed. *)
Definition priorityRecord : IO.Record_ :=
  [("DeveloperName", " Priority "); ("LastModifiedDate", "2024-05-01")].
Definition otherRecord : IO.Record_ :=
  [("DeveloperName", "Other"); ("LastModifiedDate", "2023-01-01")].

Definition csvFiles (found : bool) : Run.FileSystem :=
  {| Run.existsSync := fun _ => found;
     Run.readFileSync := fun _ => Ok "last-modified" |}.

(** The inventory CSV, as parsed: a padded name, and a record without one. *)
Definition nameRecord : IO.Record_ :=
  [("QualifiedApiName", " Name "); ("DataType", "Text")].
Definition namelessRecord : IO.Record_ := [("DataType", "Text")].

Definition parseCsv : IO.CsvParser :=
  fun text =>
    if String.eqb text "last-modified" then Ok [priorityRecord; otherRecord]
    else if String.eqb text "inventory" then Ok [nameRecord; namelessRecord]
    else Throw (Error "Invalid Record Length").

Definition cliSucceeds : Exec.Outcome :=
  {| Exec.error := None; Exec.stdout := "inventory"; Exec.stderr := "" |}.
Definition cliFails : Exec.Outcome :=
  {| Exec.error := Some "Command failed"; Exec.stdout := "";
     Exec.stderr := "  No authorization found  " |}.

Definition process (platform : string) (o : Exec.Outcome) : Exec.Process :=
  {| Exec.platform := platform; Exec.execFile := fun _ _ => o |}.

(** The corpora of [fieldMaps] with the dictionary built from the CSV. *)
Definition datedMaps : Fields.Maps :=
  {| Fields.lastModified :=
       fold_left Run.addRecord [priorityRecord; otherRecord] ∅;
     Fields.apex := []; Fields.flow := []; Fields.vr := []; Fields.dup := [];
     Fields.layout := Fields.layout fieldMaps;
     Fields.recordType := []; Fields.flexipage := [];
     Fields.report := []; Fields.email := [];
     Fields.lwc := None; Fields.aura := None;
     Fields.profiles := None; Fields.permsets := None |}.

End Samples.


(* ===================================================================== *)
(** * Properties *)
(* ===================================================================== *)

Import RegExp Matchers Spec.

(** ** The usage matcher *)

Ltac all_chars c := destruct c as [[] [] [] [] [] [] [] []].

Lemma sapp_nil s : "" +:+ s = s.
Proof. reflexivity. Qed.
Lemma sapp_cons c a b : String c a +:+ b = String c (a +:+ b).
Proof. reflexivity. Qed.
Ltac sapp := rewrite ?sapp_cons, ?sapp_nil.
Ltac sapp_in H := rewrite ?sapp_cons, ?sapp_nil in H.

Lemma needs_escape_syntax c : needs_escape c = is_syntax_char c.
Proof. all_chars c; reflexivity. Qed.

Lemma parse_plain c r :
  is_syntax_char c = false -> parse (String c r) = cons (PatternChar c) <$> parse r.
Proof. all_chars c; intros H; try discriminate H; reflexivity. Qed.

Lemma parse_escaped c r :
  is_syntax_char c = true ->
  parse (String "\" (String c r)) = cons (PatternChar c) <$> parse r.
Proof. all_chars c; intros H; try discriminate H; reflexivity. Qed.

Lemma parse_escape f rest :
  parse (escape f +:+ rest) = app (literal f) <$> parse rest.
Proof.
  induction f as [|c f IH].
  - change (escape "" +:+ rest) with rest. destruct (parse rest); reflexivity.
  - cbn [escape literal]. rewrite needs_escape_syntax. destruct (is_syntax_char c) eqn:E.
    + change (String "\" (String c (escape f)) +:+ rest)
        with (String "\" (String c (escape f +:+ rest))).
      rewrite parse_escaped by exact E. rewrite IH.
      destruct (parse rest); reflexivity.
    + change (String c (escape f) +:+ rest) with (String c (escape f +:+ rest)).
      rewrite parse_plain by exact E. rewrite IH.
      destruct (parse rest); reflexivity.
Qed.

Lemma parse_pattern f :
  parse ("\b" +:+ escape f +:+ "\b") = Some (WordBoundary :: literal f ++ [WordBoundary]).
Proof.
  change ("\b" +:+ escape f +:+ "\b") with (String "\" (String "b" (escape f +:+ "\b"))).
  cbn [parse]. rewrite parse_escape. reflexivity.
Qed.

Lemma last_or_cons prev d s : last_or prev (String d s) = last_or (Some d) s.
Proof. unfold last_or. cbn [last_char]. destruct (last_char s); reflexivity. Qed.

Lemma last_char_app a b : last_char (a +:+ b) = last_or (last_char a) b.
Proof.
  induction a as [|c a IH]; sapp; cbn [last_char].
  - unfold last_or. destruct (last_char b); reflexivity.
  - rewrite IH. unfold last_or. destruct (last_char b), (last_char a); reflexivity.
Qed.

Lemma match_literal ic f : forall ts prev input,
  match_here ic (literal f ++ ts) prev input = true <->
  exists mid post,
    input = mid +:+ post /\ canon_str ic mid = canon_str ic f
    /\ match_here ic ts (last_or prev mid) post = true.
Proof.
  induction f as [|c f IH]; intros ts prev input.
  - cbn [literal app]. split.
    + intros H. exists "", input. auto.
    + intros (mid & post & -> & Hc & H). destruct mid; [exact H | discriminate Hc].
  - cbn [literal app match_here]. destruct input as [|d rest].
    + split; [discriminate|].
      intros (mid & post & Hin & Hc & _). destruct mid; discriminate.
    + rewrite andb_true_iff, IH. split.
      * intros [Hcd (mid & post & -> & Hc & H)].
        apply Ascii.eqb_eq in Hcd.
        exists (String d mid), post. rewrite last_or_cons. sapp. cbn [canon_str].
        rewrite Hc, Hcd. auto.
      * intros (mid & post & Hin & Hc & H).
        destruct mid as [|d' mid]; [discriminate Hc|].
        sapp_in Hin. cbn [canon_str] in Hc. injection Hin as -> ->.
        injection Hc as Hcd Hc. rewrite last_or_cons in H.
        split; [apply Ascii.eqb_eq; congruence|]. exists mid, post. auto.
Qed.

Lemma search_spec ic ts : forall prev input,
  search ic ts prev input = true <->
  exists pre post,
    input = pre +:+ post /\ match_here ic ts (last_or prev pre) post = true.
Proof.
  intros prev input. revert prev.
  induction input as [|d rest IH]; intros prev; cbn [search]; rewrite orb_true_iff.
  - split.
    + intros [H|H]; [|discriminate]. exists "", "". auto.
    + intros (pre & post & Hin & H). destruct pre; [|discriminate].
      sapp_in Hin. subst post. left. exact H.
  - rewrite IH. split.
    + intros [H|(pre & post & -> & H)].
      * exists "", (String d rest). auto.
      * exists (String d pre), post. rewrite last_or_cons. auto.
    + intros (pre & post & Hin & H). destruct pre as [|d' pre].
      * sapp_in Hin. subst post. left. exact H.
      * sapp_in Hin. injection Hin as -> ->.
        rewrite last_or_cons in H. right. exists pre, post. auto.
Qed.

Lemma lower_upper c : JS.lower_char (upper_char c) = JS.lower_char c.
Proof. all_chars c; reflexivity. Qed.

Lemma upper_lower c : upper_char (JS.lower_char c) = upper_char c.
Proof. all_chars c; reflexivity. Qed.

Lemma canon_iff_lower a b :
  canon_str true a = canon_str true b <-> same_ignoring_case a b.
Proof.
  assert (L : forall s, JS.toLowerCase (canon_str true s) = JS.toLowerCase s).
  { induction s as [|c s IH]; cbn; [reflexivity|]. now rewrite lower_upper, IH. }
  assert (U : forall s, canon_str true (JS.toLowerCase s) = canon_str true s).
  { induction s as [|c s IH]; cbn; [reflexivity|]. now rewrite upper_lower, IH. }
  unfold same_ignoring_case. split; intros H.
  - rewrite <- (L a), <- (L b). now rewrite H.
  - rewrite <- (U a), <- (U b). now rewrite H.
Qed.

Lemma xorb_boundary l r :
  xorb (is_word_at l) (is_word_at r) = true <-> word_boundary l r.
Proof. unfold word_boundary. destruct (is_word_at l), (is_word_at r); cbn; split; congruence. Qed.

Lemma last_or_None s : last_or None s = last_char s.
Proof. unfold last_or. destruct (last_char s); reflexivity. Qed.

Lemma whole_word_search text f :
  search true (WordBoundary :: literal f ++ [WordBoundary]) None text = true
  <-> whole_word_occurrence text f.
Proof.
  rewrite search_spec. unfold whole_word_occurrence. split.
  - intros (pre & post0 & -> & H). cbn [match_here] in H.
    apply andb_true_iff in H as [Hb H].
    apply match_literal in H as (mid & post & -> & Hc & H).
    cbn [match_here] in H. rewrite andb_true_r in H.
    exists pre, mid, post. rewrite last_char_app.
    rewrite last_or_None in *.
    split; [reflexivity|]. split; [now apply canon_iff_lower|].
    split; now apply xorb_boundary.
  - intros (pre & mid & post & -> & Hc & Hl & Hr).
    exists pre, (mid +:+ post). split; [reflexivity|].
    rewrite last_or_None.
    cbn [match_here]. apply andb_true_iff. split; [now apply xorb_boundary|].
    apply match_literal. exists mid, post. split; [reflexivity|].
    split; [now apply canon_iff_lower|].
    cbn [match_here]. rewrite andb_true_r, <- last_char_app. now apply xorb_boundary.
Qed.

Lemma truthy_str_iff s : JS.truthy_str s = true <-> s <> "".
Proof.
  unfold JS.truthy_str. destruct (String.eqb_spec s ""); cbn; split; congruence.
Qed.

Lemma containsField_default text f :
  containsField text f defaultOpts =
  if negb (JS.truthy_str text) || negb (JS.truthy_str f) then Some false
  else Some (search true (WordBoundary :: literal f ++ [WordBoundary]) None text).
Proof.
  unfold containsField. cbn [ignoreCase wholeWord defaultOpts default negb].
  destruct (negb (JS.truthy_str text) || negb (JS.truthy_str f)); [reflexivity|].
  unfold RegExp.new. rewrite parse_pattern. reflexivity.
Qed.

(** The constructor accepts every pattern built from an escaped name. *)
Lemma containsField_total text f opts : is_Some (containsField text f opts).
Proof.
  unfold containsField.
  destruct (negb (JS.truthy_str text) || negb (JS.truthy_str f)); [eauto|].
  destruct (negb (default true (wholeWord opts))); [eauto|].
  unfold RegExp.new. rewrite parse_pattern.
  destruct (default true (ignoreCase opts)); cbn; eauto.
Qed.

Lemma matches_containsField text f :
  containsField text f defaultOpts = Some (matches text f).
Proof.
  unfold matches. destruct (containsField_total text f defaultOpts) as [b ->].
  reflexivity.
Qed.

(** C1: [containsField] with the default options returns true exactly
    when text and identifier are non-empty and the identifier occurs in
    the text, ignoring case, with a word boundary on both sides; it never
    throws; an empty text or identifier gives false; and the three sample
    calls of the specification evaluate as stated. *)
Theorem containsField_whole_word text ident :
  (containsField text ident defaultOpts = Some true
     <-> text <> "" /\ ident <> "" /\ whole_word_occurrence text ident)
  /\ is_Some (containsField text ident defaultOpts)
  /\ containsField "" ident defaultOpts = Some false
  /\ containsField text "" defaultOpts = Some false
  /\ containsField "AccountBalance__c field appears" "Balance__c" defaultOpts = Some false
  /\ containsField "The Balance__c field" "Balance__c" defaultOpts = Some true
  /\ containsField "the BALANCE__C value" "Balance__c" defaultOpts = Some true.
Proof.
  split; [|split; [apply containsField_total|]].
  - rewrite containsField_default, <- !truthy_str_iff, <- whole_word_search.
    destruct (JS.truthy_str text), (JS.truthy_str ident); cbn;
      (split; [intros H | intros (? & ? & H)]); try discriminate; auto.
    now injection H.  now rewrite H.
  - rewrite !containsField_default. cbn [JS.truthy_str String.eqb negb orb].
    rewrite orb_true_r. repeat split; vm_compute; reflexivity.
Qed.

(** ** The usage columns of a local row *)

Section LocalUsage.
Import Value Fields.

Lemma buildRow_usage maps xml cf row :
  buildRow maps xml cf = Ok row ->
  Layouts row = Search.searchUsage (layout maps) (FieldName row)
  /\ Flexipages row = Search.searchUsage (flexipage maps) (FieldName row)
  /\ RecordTypes row = Search.searchUsage (recordType maps) (FieldName row)
  /\ References row
     = Search.collectReferences (apex maps) (flow maps) (vr maps) (dup maps)
         (report maps) (email maps) (FieldName row)
         (Some {| Search.x_lwc := lwc maps; Search.x_aura := aura maps;
                  Search.x_profiles := None; Search.x_permsets := None |}).
Proof.
  unfold buildRow.
  repeat match goal with
  | |- context [mbind _ (readXmlFieldValue ?x ?p)] =>
      destruct (readXmlFieldValue x p); cbn [mbind result_bind]; [|discriminate]
  end.
  destruct (String.eqb _ "Lookup"); cbn [mbind result_bind].
  - destruct (readXmlFieldValue xml ["CustomField"; "referenceTo"]);
      cbn [mbind result_bind]; [|discriminate].
    destruct (readXmlFieldValue xml ["CustomField"; "required"]);
      cbn [mbind result_bind]; [|discriminate].
    intros [= <-]. cbn. auto.
  - destruct (readXmlFieldValue xml ["CustomField"; "required"]);
      cbn [mbind result_bind]; [|discriminate].
    intros [= <-]. cbn. auto.
Qed.

Lemma scan_unmentioned label (m : option TextMap) name :
  unmentioned m name ->
  match m with Some t => Search.scan label t name | None => [] end = [].
Proof.
  destruct m as [t|]; [|done]. unfold unmentioned, Search.scan. cbn [default].
  intros H. generalize (Search.keys t). intros l.
  induction l as [|k l IH]; [done|]. cbn [List.filter].
  unfold Search.containsAt at 1.
  destruct (assoc k t) as [text|] eqn:E; [rewrite (H _ _ E)|]; exact IH.
Qed.

(** Where the access-control corpora do not name the field, scanning
    them adds no reference. *)
Lemma collectReferences_unmentioned apex flow vr dup report email name
    lwc aura profiles permsets :
  unmentioned profiles name -> unmentioned permsets name ->
  Search.collectReferences apex flow vr dup report email name
    (Some {| Search.x_lwc := lwc; Search.x_aura := aura;
             Search.x_profiles := profiles; Search.x_permsets := permsets |})
  = Search.collectReferences apex flow vr dup report email name
      (Some {| Search.x_lwc := lwc; Search.x_aura := aura;
               Search.x_profiles := None; Search.x_permsets := None |}).
Proof.
  intros Hp Hs. unfold Search.collectReferences, Search.collectReferences_list.
  unfold Search.scan_extra at 3 4 7 8. cbn [Search.x_profiles Search.x_permsets].
  by rewrite (scan_unmentioned "Profile: " _ _ Hp), (scan_unmentioned "PermSet: " _ _ Hs).
Qed.

End LocalUsage.

(** ** The remote field merger *)

Section Merger.
Import Standard.

Lemma mergeStep_pushes names maps merged def :
  mergeStep names maps merged def =
  merged ++ (if pushes names def then [standardRow maps def] else []).
Proof.
  unfold mergeStep, pushes.
  destruct (JS.truthy_str (QualifiedApiName def)); cbn; [|by rewrite app_nil_r].
  destruct (bool_decide _); cbn; [by rewrite app_nil_r | done].
Qed.

Lemma fold_mergeStep names maps defs : forall merged,
  fold_left (mergeStep names maps) defs merged =
  merged ++ map (standardRow maps) (List.filter (pushes names) defs).
Proof.
  induction defs as [|d defs IH]; intros merged; cbn [fold_left List.filter].
  - by rewrite app_nil_r.
  - rewrite IH, mergeStep_pushes. destruct (pushes names d); cbn.
    + by rewrite <- app_assoc.
    + by rewrite app_nil_r.
Qed.

Lemma merge_unfold rows defs maps :
  mergeStandardFields rows defs maps =
  rows ++ map (standardRow maps) (List.filter (pushes (existingNames rows)) defs).
Proof. apply fold_mergeStep. Qed.

Lemma elem_existingNames rows s :
  s ∈ existingNames rows <-> exists r, r ∈ rows /\ JS.toLowerCase (FieldName r) = s.
Proof.
  unfold existingNames. rewrite elem_of_list_to_set, list_elem_of_In, in_map_iff.
  split; intros (r & H1 & H2); exists r; [rewrite list_elem_of_In|rewrite <- list_elem_of_In]; auto.
Qed.

Lemma existingNames_app a b : existingNames (a ++ b) = existingNames a ∪ existingNames b.
Proof. unfold existingNames. by rewrite map_app, list_to_set_app_L. Qed.

Lemma pushes_after_merge rows defs maps d :
  In d defs -> pushes (existingNames (mergeStandardFields rows defs maps)) d = false.
Proof.
  intros Hd. unfold pushes.
  destruct (JS.truthy_str (QualifiedApiName d)) eqn:Ht; [cbn|done].
  apply negb_false_iff, bool_decide_eq_true.
  rewrite merge_unfold, existingNames_app, elem_of_union.
  destruct (bool_decide (JS.toLowerCase (QualifiedApiName d) ∈ existingNames rows)) eqn:E.
  - left. by apply bool_decide_eq_true in E.
  - right. apply elem_existingNames. exists (standardRow maps d). split; [|done].
    apply list_elem_of_In, in_map, filter_In. split; [done|].
    unfold pushes. by rewrite Ht, E.
Qed.

Lemma pushes_true names d :
  pushes names d = true <->
  QualifiedApiName d <> "" /\ JS.toLowerCase (QualifiedApiName d) ∉ names.
Proof.
  unfold pushes. rewrite andb_true_iff, negb_true_iff, bool_decide_eq_false.
  unfold JS.truthy_str. destruct (String.eqb_spec (QualifiedApiName d) ""); cbn; intuition congruence.
Qed.

Lemma name_taken_iff rows name :
  name_taken rows name <-> JS.toLowerCase name ∈ existingNames rows.
Proof.
  rewrite elem_existingNames. unfold name_taken, Spec.same_ignoring_case.
  split; intros (r & ? & ?); exists r; auto.
Qed.

Lemma filter_sublist {A} (p : A -> bool) l : sublist (List.filter p l) l.
Proof.
  induction l as [|x l IH]; cbn; [constructor|].
  destruct (p x); by constructor.
Qed.

Lemma merge_app rows defs1 defs2 maps :
  mergeStandardFields rows (defs1 ++ defs2) maps =
  mergeStandardFields rows defs1 maps ++ drop (length rows) (mergeStandardFields rows defs2 maps).
Proof.
  rewrite !merge_unfold, List.filter_app, map_app, drop_app_length. by rewrite <- app_assoc.
Qed.

Lemma names_after_merge rows defs maps :
  map FieldName (mergeStandardFields rows defs maps) =
  map FieldName rows
  ++ map QualifiedApiName (List.filter (pushes (existingNames rows)) defs).
Proof. rewrite merge_unfold, map_app, map_map. reflexivity. Qed.

Lemma merge_distinct_when_remote_distinct rows defs maps :
  distinct_ignoring_case (map FieldName rows) ->
  distinct_ignoring_case
    (List.filter JS.truthy_str (map QualifiedApiName defs)) ->
  distinct_ignoring_case (map FieldName (mergeStandardFields rows defs maps)).
Proof.
  unfold distinct_ignoring_case. intros Hl Hr.
  rewrite names_after_merge, map_app. apply NoDup_app. split; [done|]. split.
  - intros x Hx Hx'.
    apply list_elem_of_fmap in Hx as (n & -> & Hn).
    apply list_elem_of_fmap in Hn as (r & -> & Hr').
    apply list_elem_of_fmap in Hx' as (n' & E & Hn').
    apply list_elem_of_fmap in Hn' as (d & -> & Hd).
    rewrite list_elem_of_In, filter_In in Hd. destruct Hd as [_ Hd].
    apply pushes_true in Hd as [_ Hd]. apply Hd. rewrite <- E.
    apply elem_existingNames. eauto.
  - eapply sublist_NoDup; [exact Hr|]. apply (fmap_sublist JS.toLowerCase).
    clear. induction defs as [|d defs IH]; cbn; [constructor|].
    unfold pushes at 1. destruct (JS.truthy_str (QualifiedApiName d)); cbn; [|done].
    destruct (bool_decide _); cbn; by constructor.
Qed.

(** C4, evaluated: with one local row and a remote inventory that lists
    the name "Name" twice and "NAME" once, the merger appends a row per
    listing, so the merged names are no longer pairwise distinct up to
    case, although the local names were. *)
Theorem merge_repeated_remote_name :
  let local := Examples.statusRow in
  let d1 := {| QualifiedApiName := "Name"; DataType := "Text" |} in
  let d2 := {| QualifiedApiName := "NAME"; DataType := "Text" |} in
  distinct_ignoring_case (map FieldName [local])
  /\ map FieldName (mergeStandardFields [local] [d1; d1; d2] Examples.emptyMaps)
     = ["Status__c"; "Name"; "Name"; "NAME"]
  /\ ~ distinct_ignoring_case
         (map FieldName (mergeStandardFields [local] [d1; d1; d2] Examples.emptyMaps)).
Proof.
  cbv zeta. split; [|split].
  - apply NoDup_singleton.
  - vm_compute. reflexivity.
  - unfold distinct_ignoring_case. intros H.
    assert (E : map JS.toLowerCase
      (map FieldName (mergeStandardFields
         [Examples.statusRow]
         [{| QualifiedApiName := "Name"; DataType := "Text" |};
          {| QualifiedApiName := "Name"; DataType := "Text" |};
          {| QualifiedApiName := "NAME"; DataType := "Text" |}] Examples.emptyMaps))
      = ["status__c"; "name"; "name"; "name"]) by (vm_compute; reflexivity).
    rewrite E in H. apply NoDup_cons in H as [_ H]. apply NoDup_cons in H as [H _].
    apply H. left.
Qed.

(** C5, as amended: a remote pair adds nothing when its apiName is empty
    or equals, up to case, the FieldName of a local row; any other pair
    adds exactly one row at its place, with FieldName and FieldType taken
    from the pair, every descriptor column empty and Required "FALSE".
    Its Layouts, Flexipages and RecordTypes are what [searchUsage] gives,
    the same as in the row of a local field of that name built over the
    same corpora; and so are its References, where no profile and no
    permission set names the field. *)
Theorem merge_pair_contribution rows maps (p : FieldDef) (before after : list FieldDef) :
  (name_taken rows (QualifiedApiName p) \/ QualifiedApiName p = "" ->
     mergeStandardFields rows (before ++ p :: after) maps
     = mergeStandardFields rows (before ++ after) maps)
  /\ (~ name_taken rows (QualifiedApiName p) -> QualifiedApiName p <> "" ->
      exists row,
        mergeStandardFields rows (before ++ p :: after) maps
        = mergeStandardFields rows before maps
            ++ row :: drop (length rows) (mergeStandardFields rows after maps)
        /\ FieldName row = QualifiedApiName p
        /\ FieldType row = DataType p
        /\ FieldLabel row = "" /\ Description row = "" /\ Formula row = ""
        /\ FieldLength row = "" /\ LookupRef row = "" /\ PicklistValues row = ""
        /\ ControllingField row = "" /\ HistoryTracking row = ""
        /\ LastModifiedDate row = "" /\ Required row = "FALSE"
        /\ Layouts row = Search.searchUsage (layout maps) (QualifiedApiName p)
        /\ Flexipages row = Search.searchUsage (flexipage maps) (QualifiedApiName p)
        /\ RecordTypes row = Search.searchUsage (recordType maps) (QualifiedApiName p)
        /\ forall fm xml cf local,
             corpora fm = maps ->
             Fields.buildRow fm xml cf = Value.Ok local ->
             FieldName local = QualifiedApiName p ->
             Layouts row = Layouts local
             /\ Flexipages row = Flexipages local
             /\ RecordTypes row = RecordTypes local
             /\ (unmentioned (profiles maps) (QualifiedApiName p) ->
                 unmentioned (permsets maps) (QualifiedApiName p) ->
                 References row = References local)).
Proof.
  split.
  - intros H. assert (pushes (existingNames rows) p = false) as E.
    { apply not_true_iff_false. rewrite pushes_true, <- name_taken_iff. tauto. }
    rewrite !merge_unfold, !List.filter_app. cbn [List.filter]. by rewrite E.
  - intros Hn He. assert (pushes (existingNames rows) p = true) as E.
    { rewrite pushes_true, <- name_taken_iff. tauto. }
    exists (standardRow maps p). split.
    { rewrite !merge_unfold, List.filter_app, map_app, drop_app_length.
      cbn [List.filter]. rewrite E. cbn [map]. by rewrite <- app_assoc. }
    do 15 (split; [reflexivity|]).
    intros fm xml cf local <- Hb Hl.
    destruct (buildRow_usage _ _ _ _ Hb) as (-> & -> & -> & ->). rewrite Hl.
    do 3 (split; [reflexivity|]).
    intros Hp Hs. cbn [References standardRow].
    exact (collectReferences_unmentioned _ _ _ _ _ _ _ _ _ _ _ Hp Hs).
Qed.

(** C6: merging the same inventory into the result of a first merge
    appends nothing; the row set is that of the first merge. *)
Theorem merge_idempotent rows defs maps :
  mergeStandardFields (mergeStandardFields rows defs maps) defs maps
  = mergeStandardFields rows defs maps.
Proof.
  rewrite (merge_unfold (mergeStandardFields rows defs maps)).
  assert (List.filter (pushes (existingNames (mergeStandardFields rows defs maps))) defs = []) as ->.
  { generalize (pushes_after_merge rows defs maps).
    generalize (pushes (existingNames (mergeStandardFields rows defs maps))).
    intros p Hp. induction defs as [|d defs IH]; [done|]. cbn.
    rewrite Hp by (left; done). apply IH. intros d' Hd'. apply Hp. by right. }
  cbn. by rewrite app_nil_r.
Qed.

(** C10: the merged list is the local rows, unchanged and in order,
    followed by rows synthesized from remote pairs with a non-empty
    apiName, in inventory order; a pair with an empty apiName adds
    nothing. *)
Theorem merge_keeps_local rows defs maps :
  (exists kept,
      sublist kept defs
      /\ Forall (fun d => QualifiedApiName d <> "") kept
      /\ mergeStandardFields rows defs maps = rows ++ map (standardRow maps) kept)
  /\ take (length rows) (mergeStandardFields rows defs maps) = rows
  /\ forall before after dataType,
       mergeStandardFields rows
         (before ++ {| QualifiedApiName := ""; DataType := dataType |} :: after) maps
       = mergeStandardFields rows (before ++ after) maps.
Proof.
  split; [|split].
  - exists (List.filter (pushes (existingNames rows)) defs).
    split; [apply filter_sublist|]. split; [|apply merge_unfold].
    apply List.Forall_forall. intros d Hd. rewrite filter_In in Hd.
    destruct Hd as [_ Hd]. by apply pushes_true in Hd as [? _].
  - by rewrite merge_unfold, take_app_length.
  - intros before after dataType. by rewrite !merge_unfold, !List.filter_app.
Qed.

End Merger.

(** ** The field descriptor parser and the result assembler *)

Section Assembler.
Import Value Fields.

Lemma prefix_app a b : String.prefix a (a +:+ b) = true.
Proof.
  induction a as [|c a IH]; [by destruct b|].
  change (String c a +:+ b) with (String c (a +:+ b)). cbn.
  destruct (ascii_dec c c); [exact IH | congruence].
Qed.

Lemma processFields_not_found w path maps verbose tr :
  existsSync w path = false ->
  processFields w path maps verbose tr
  = (tr ++ [EvExists path], Throw (Error (notFoundMessage path))).
Proof. intros H. unfold processFields, mbind, M_bind, call, throw. by rewrite H. Qed.

Lemma processFields_no_files w path maps verbose tr :
  existsSync w path = true -> fg w [fieldGlob path] = Ok [] ->
  processFields w path maps verbose tr
  = ((tr ++ [EvExists path]) ++ [EvGlob [fieldGlob path]]
       ++ [EvLog (discoveredMessage 0 (fieldGlob path)) verbose],
     Throw (Error (noFilesMessage path))).
Proof.
  intros H G. unfold processFields, mbind, M_bind, call, throw. rewrite H. cbn.
  rewrite G. cbn. by rewrite <- !app_assoc.
Qed.

Lemma documents_read_app a b :
  documents_read (a ++ b) = documents_read a ++ documents_read b.
Proof. apply omap_app. Qed.

Lemma readXml_root_element xml cf key :
  get (Some xml) "CustomField" = Some cf ->
  (forall c s, cf <> VStr (String c s)) ->
  exists s, readXmlFieldValue xml ["CustomField"; key] = Ok s.
Proof.
  intros Hcf Hel. destruct xml as [| |?|props]; try discriminate Hcf.
  cbn in Hcf. unfold readXmlFieldValue. cbn [walk step truthy negb mbind result_bind].
  rewrite Hcf. destruct cf as [|s|items|cprops]; cbn.
  - eauto.
  - destruct s; cbn; [eauto|]. by edestruct Hel.
  - eauto.
  - destruct (assoc key cprops) as [[| |[|]|]|]; eauto.
Qed.

Lemma buildRow_root_element maps xml cf :
  get (Some xml) "CustomField" = Some cf ->
  (forall c s, cf <> VStr (String c s)) ->
  exists row, buildRow maps xml cf = Ok row.
Proof.
  intros Hcf Hel. unfold buildRow.
  repeat match goal with
  | |- context [readXmlFieldValue xml ["CustomField"; ?k]] =>
      let s := fresh "s" in let E := fresh "E" in
      destruct (readXml_root_element xml cf k Hcf Hel) as [s E]; rewrite E; clear E;
      cbn [mbind result_bind]
  end.
  destruct (String.eqb _ "Lookup"); cbn [mbind result_bind]; eauto.
Qed.

Lemma loop_all_parse w maps files docs :
  Forall2 (parses_to w) files docs ->
  Forall root_is_element docs ->
  forall results tr,
  exists rowss,
    snd (loop w maps files results tr) = Ok (results ++ concat rowss)
    /\ Forall2 (doc_rows maps) docs rowss.
Proof.
  induction 1 as [|file xml files docs (text & Hr & Hp) _ IH]; intros Hel results tr.
  - exists []. cbn. by rewrite app_nil_r.
  - apply Forall_cons in Hel as [Hx Hel].
    cbn [loop]. unfold mbind at 1, M_bind at 1, call at 1. rewrite Hr.
    unfold mbind at 1, M_bind at 1, call at 1. rewrite Hp.
    unfold root_is_element in Hx.
    destruct (get (Some xml) "CustomField") as [cf|] eqn:Hcf.
    + destruct (truthy (Some cf)) eqn:Ht; cbn [negb].
      * destruct (buildRow_root_element maps xml cf Hcf) as [row Hrow].
        { intros c s ->. exact Hx. }
        unfold mbind at 1, M_bind at 1, lift at 1. rewrite Hrow.
        destruct (IH Hel (results ++ [row]) ((tr ++ [EvRead file]) ++ [EvParse text]))
          as (rowss & E & F).
        exists ([row] :: rowss). split.
        -- rewrite E. cbn. by rewrite <- app_assoc.
        -- constructor; [|exact F]. unfold doc_rows, has_root. rewrite Hcf, Ht. eauto.
      * destruct (IH Hel results ((tr ++ [EvRead file]) ++ [EvParse text]))
          as (rowss & E & F).
        exists ([] :: rowss). split; [exact E|].
        constructor; [|exact F]. unfold doc_rows, has_root. by rewrite Hcf, Ht.
    + destruct (IH Hel results ((tr ++ [EvRead file]) ++ [EvParse text]))
        as (rowss & E & F).
      exists ([] :: rowss). split; [exact E|].
      constructor; [|exact F]. unfold doc_rows, has_root. by rewrite Hcf.
Qed.

Lemma buildRow_fields maps xml cf row :
  buildRow maps xml cf = Ok row ->
  FieldLength row = getFieldLength cf (FieldType row)
  /\ PicklistValues row = values (getPicklistValues cf)
  /\ ControllingField row = controlling (getPicklistValues cf)
  /\ ProfilesAndPermSets row
     = Search.profilesAndPermSets (profiles maps) (permsets maps) (FieldName row).
Proof.
  unfold buildRow.
  repeat match goal with
  | |- context [mbind _ (readXmlFieldValue ?x ?p)] =>
      destruct (readXmlFieldValue x p); cbn [mbind result_bind]; [|discriminate]
  end.
  destruct (String.eqb _ "Lookup"); cbn [mbind result_bind].
  - destruct (readXmlFieldValue xml ["CustomField"; "referenceTo"]);
      cbn [mbind result_bind]; [|discriminate].
    destruct (readXmlFieldValue xml ["CustomField"; "required"]);
      cbn [mbind result_bind]; [|discriminate].
    intros [= <-]. cbn. auto.
  - destruct (readXmlFieldValue xml ["CustomField"; "required"]);
      cbn [mbind result_bind]; [|discriminate].
    intros [= <-]. cbn. auto.
Qed.

Lemma falsy_get o key : truthy o = false -> get o key = None.
Proof. destruct o as [[| |?|?]|]; cbn; intros; done. Qed.

Lemma first_child_first o name : first_child o name = first o name.
Proof. unfold first_child, first. by destruct (get o name). Qed.

Lemma names_of_value_names items :
  names_of items = List.filter JS.truthy_str (map value_name items).
Proof.
  induction items as [|item items IH]; [done|].
  cbn [names_of map List.filter]. rewrite first_child_first, IH.
  assert (text_of_element (first (Some item) "fullName") = value_name item) as ->.
  { unfold value_name, text_of_element.
    by destruct (first (Some item) "fullName") as [[]|]. }
  by destruct (value_name item).
Qed.

Lemma getPicklistValues_spec cf :
  values (getPicklistValues cf) =
    match literal_value_names cf with
    | [] => if truthy (shared_value_set_name cf)
            then String_ (shared_value_set_name cf) else ""
    | names => JS.join ", " names
    end
  /\ controlling (getPicklistValues cf) = controlling_field cf.
Proof.
  unfold getPicklistValues, literal_value_names, shared_value_set_name,
    controlling_field, value_set.
  repeat match goal with
  | |- context [first_child ?o ?n] => rewrite (first_child_first o n)
  end.
  set (vs := first (Some cf) "valueSet").
  destruct (truthy vs) eqn:Hvs; cbn [negb].
  - set (vals := get (first vs "valueSetDefinition") "value").
    assert (Hc : (if truthy (get vs "controllingField")
                  then String_ (index0 (get vs "controllingField")) else "")
                 = match get vs "controllingField" with
                   | Some v => if truthy (Some v) then String_ (index0 (Some v)) else ""
                   | None => ""
                   end) by (destruct (get vs "controllingField"); reflexivity).
    set (names := match vals with
                  | Some (VArr ((_ :: _) as items)) =>
                      List.filter JS.truthy_str (map value_name items)
                  | _ => []
                  end).
    assert (Hn : match vals with
                 | Some (VArr items) => names_of items
                 | _ => []
                 end = names).
    { destruct vals as [[| |[|]|]|]; try reflexivity. apply names_of_value_names. }
    rewrite Hn, <- Hc. clearbody names.
    destruct names; [destruct (truthy (first vs "valueSetName"))|]; cbn; auto.
  - cbn [values controlling]. unfold first. rewrite !(falsy_get vs) by done.
    cbn. auto.
Qed.

Lemma trimmed_type_cases t :
  (String.eqb t "Text" || String.eqb t "Html" || String.eqb t "LongTextArea" = true
     <-> t ∈ ["Text"; "Html"; "LongTextArea"])
  /\ (String.eqb t "Number" || String.eqb t "Currency" = true
     <-> t ∈ ["Number"; "Currency"]).
Proof.
  rewrite !orb_true_iff, !String.eqb_eq, !elem_of_cons, !elem_of_nil. tauto.
Qed.

Lemma join_precision_scale p s :
  JS.join ", " (List.filter JS.truthy_str [p; s]) = precision_scale p s.
Proof.
  unfold precision_scale, JS.truthy_str. cbn [List.filter].
  destruct (String.eqb_spec p ""), (String.eqb_spec s ""); subst; reflexivity.
Qed.

Lemma trimEnd_last s :
  match last_char (JS.trimEnd s) with
  | Some c => JS.is_space c = false
  | None => True
  end.
Proof.
  induction s as [|c r IH]; cbn [JS.trimEnd]; [exact I|].
  destruct (JS.trimEnd r) as [|d r'] eqn:E.
  - destruct (JS.is_space c) eqn:Hc; cbn [last_char]; done.
  - change (last_char (String c (String d r'))) with
      (match last_char (String d r') with Some x => Some x | None => Some c end).
    destruct (last_char (String d r')) eqn:L; [exact IH|].
    cbn [last_char] in L. destruct (last_char r'); discriminate L.
Qed.

Lemma trim_not_trailing_space s : String.eqb (JS.trim s) "Currency " = false.
Proof.
  apply String.eqb_neq. intros E. unfold JS.trim in E.
  pose proof (trimEnd_last (JS.trimStart s)) as H. rewrite E in H.
  vm_compute in H. discriminate H.
Qed.

(** C2, as amended: when the directory exists, the glob finds documents
    and every document is read and parsed, a document lacking the root
    element adds no row and raises nothing, and every other document
    (its root an element) adds exactly one row, in document order. *)
Theorem processFields_skips_rootless w path maps verbose tr files docs :
  existsSync w path = true ->
  fg w [fieldGlob path] = Ok files ->
  files <> [] ->
  Forall2 (parses_to w) files docs ->
  Forall root_is_element docs ->
  exists rowss,
    snd (processFields w path maps verbose tr) = Ok (concat rowss)
    /\ Forall2 (doc_rows maps) docs rowss.
Proof.
  intros He Hg Hne Hp Hel.
  unfold processFields, mbind at 1, M_bind at 1, call at 1. rewrite He. cbn [negb].
  unfold mbind at 1, M_bind at 1, call at 1. rewrite Hg.
  unfold mbind at 1, M_bind at 1, call at 1.
  destruct files as [|f files]; [done|].
  destruct (loop_all_parse w maps (f :: files) docs Hp Hel []
    (((tr ++ [EvExists path]) ++ [EvGlob [fieldGlob path]])
       ++ [EvLog (discoveredMessage (length (f :: files)) (fieldGlob path)) verbose]))
    as (rowss & E & F).
  exists rowss. split; [exact E | exact F].
Qed.

(** C7: PicklistValues is the literal value names joined with ", " when
    there are any; otherwise the shared value-set name when there is one;
    otherwise empty.  ControllingField is read under the value set,
    whichever of the three cases applies. *)
Theorem picklist_precedence maps xml cf row :
  buildRow maps xml cf = Ok row ->
  (literal_value_names cf <> [] ->
     PicklistValues row = JS.join ", " (literal_value_names cf))
  /\ (literal_value_names cf = [] -> truthy (shared_value_set_name cf) = true ->
     PicklistValues row = String_ (shared_value_set_name cf))
  /\ (literal_value_names cf = [] -> truthy (shared_value_set_name cf) = false ->
     PicklistValues row = "")
  /\ ControllingField row = controlling_field cf.
Proof.
  intros H. apply buildRow_fields in H as (_ & -> & -> & _).
  destruct (getPicklistValues_spec cf) as [-> ->].
  destruct (literal_value_names cf); repeat split; try congruence.
  - by intros _ ->.
  - by intros _ ->.
Qed.

(** C8, as amended: with the type trimmed of surrounding white space,
    FieldLength is the length attribute for Text, Html and LongTextArea,
    precision and scale (joined with ", " when both are present) for
    Number and Currency, and empty for every other type. *)
Theorem field_length_rule maps xml cf row :
  buildRow maps xml cf = Ok row ->
  (JS.trim (FieldType row) ∈ ["Text"; "Html"; "LongTextArea"] ->
     FieldLength row = attr cf "length")
  /\ (JS.trim (FieldType row) ∈ ["Number"; "Currency"] ->
     FieldLength row = precision_scale (attr cf "precision") (attr cf "scale"))
  /\ (JS.trim (FieldType row) ∉ ["Text"; "Html"; "LongTextArea"; "Number"; "Currency"] ->
     FieldLength row = "").
Proof.
  intros H. apply buildRow_fields in H as (-> & _).
  unfold getFieldLength. rewrite trim_not_trailing_space, orb_false_r.
  rewrite join_precision_scale.
  set (t := JS.trim (FieldType row)).
  destruct (trimmed_type_cases t) as [Ha Hb].
  destruct (String.eqb t "Text" || String.eqb t "Html" || String.eqb t "LongTextArea")
    eqn:E1.
  - assert (Ht : t ∈ ["Text"; "Html"; "LongTextArea"]) by (by apply Ha).
    split; [done|]. split; intros H.
    + exfalso. apply list_elem_of_In in Ht. apply list_elem_of_In in H.
      cbn in Ht, H. intuition congruence.
    + exfalso. apply H. rewrite !elem_of_cons in *. tauto.
  - destruct (String.eqb t "Number" || String.eqb t "Currency") eqn:E2.
    + assert (Ht : t ∈ ["Number"; "Currency"]) by (by apply Hb).
      split; [|split]; intros H.
      * apply Ha in H. congruence.
      * done.
      * exfalso. apply H. rewrite !elem_of_cons in *. tauto.
    + split; [|split]; intros H.
      * apply Ha in H. congruence.
      * apply Hb in H. congruence.
      * done.
Qed.

(** C9: a missing directory fails with the "Fields folder not found"
    error after the existence check alone; an existing directory without
    field documents fails with the "No field metadata files found" error
    after one glob.  Neither run reads a document, returns rows, or
    repeats a call. *)
Theorem processFields_configuration_errors w path maps verbose tr :
  (existsSync w path = false ->
     snd (processFields w path maps verbose tr) = Throw (Error (notFoundMessage path))
     /\ String.prefix "Fields folder not found: " (notFoundMessage path) = true
     /\ fst (processFields w path maps verbose tr) = tr ++ [EvExists path]
     /\ documents_read (fst (processFields w path maps verbose tr)) = documents_read tr)
  /\ (existsSync w path = true -> fg w [fieldGlob path] = Ok [] ->
     snd (processFields w path maps verbose tr) = Throw (Error (noFilesMessage path))
     /\ String.prefix "No field metadata files found" (noFilesMessage path) = true
     /\ fst (processFields w path maps verbose tr)
        = tr ++ [EvExists path; EvGlob [fieldGlob path];
                 EvLog (discoveredMessage 0 (fieldGlob path)) verbose]
     /\ documents_read (fst (processFields w path maps verbose tr)) = documents_read tr).
Proof.
  split.
  - intros H. rewrite processFields_not_found by done. cbn [fst snd].
    rewrite documents_read_app. cbn. rewrite app_nil_r.
    repeat split. apply prefix_app.
  - intros H G. rewrite processFields_no_files by done. cbn [fst snd].
    rewrite !documents_read_app. cbn. rewrite !app_nil_r, <- app_assoc.
    repeat split.
Qed.

End Assembler.

(** ** The access-control column *)

Section AccessControl.
Import Value Search.

Lemma includes_prefix_or_later s needle :
  JS.includes s needle = true <->
  exists pre post, s = pre +:+ needle +:+ post.
Proof.
  assert (P : forall n t, String.prefix n t = true <-> exists post, t = n +:+ post).
  { induction n as [|c n IH]; intros t.
    - split; [exists t; by sapp | by destruct t].
    - destruct t as [|d t]; cbn [String.prefix].
      + split; [done | intros [post E]; sapp_in E; done].
      + destruct (ascii_dec c d) as [->|Hn].
        * rewrite IH. split; intros [post E]; exists post; sapp; sapp_in E; congruence.
        * split; [done | intros [post E]; sapp_in E; congruence]. }
  induction s as [|c s IH]; cbn [JS.includes]; rewrite orb_true_iff, P.
  - split.
    + intros [[post E]|E]; [|done]. exists "", post. by sapp.
    + intros (pre & post & E). left. destruct pre; sapp_in E; [eauto | done].
  - rewrite IH. split.
    + intros [[post E]|(pre & post & E)].
      * exists "", post. by sapp.
      * exists (String c pre), post. sapp. by rewrite E.
    + intros (pre & post & E). destruct pre as [|d pre]; sapp_in E.
      * left. eauto.
      * right. exists pre, post. congruence.
Qed.

(** What the column lists, entry by entry: the artifacts whose text is
    non-empty and holds the name as a literal, case-sensitive substring. *)
Lemma accessRefs_entries label m name e :
  e ∈ accessRefs label m name <->
  exists k text,
    e = label +:+ k /\ k ∈ keys (default [] m)
    /\ assoc k (default [] m) = Some text /\ text <> ""
    /\ exists pre post, text = pre +:+ name +:+ post.
Proof.
  unfold accessRefs. rewrite list_elem_of_fmap. split.
  - intros (k & -> & Hk). rewrite list_elem_of_In, filter_In in Hk.
    destruct Hk as [Hk Hi]. unfold includesAt in Hi.
    destruct (assoc k (default [] m)) as [text|] eqn:Ha; [|done].
    apply andb_true_iff in Hi as [Ht Hi].
    exists k, text. rewrite list_elem_of_In.
    split; [done|]. split; [done|]. split; [done|].
    split; [by apply truthy_str_iff | by apply includes_prefix_or_later].
  - intros (k & text & -> & Hk & Ha & Ht & Hi). exists k. split; [done|].
    rewrite list_elem_of_In, filter_In, <- list_elem_of_In. split; [done|].
    unfold includesAt. rewrite Ha. apply andb_true_iff.
    split; [by apply truthy_str_iff | by apply includes_prefix_or_later].
Qed.

(** C3, evaluated: for the field "Balance__c", a profile mentioning only
    "AccountBalance__c" (no whole-word match) is listed in
    ProfilesAndPermSets, and a permission set mentioning "balance__c" (a
    whole-word match up to case) is not, both for the row of a local
    document and for a row synthesized by the merger; the References
    column of the synthesized row, filled by [collectReferences] from the
    same corpora, lists exactly the permission set. *)
Theorem access_column_substring_match :
  let field := {| Standard.QualifiedApiName := "Balance__c";
                  Standard.DataType := "Currency" |} in
  Matchers.matches Examples.profileText "Balance__c" = false
  /\ Matchers.matches Examples.permsetText "Balance__c" = true
  /\ (exists row,
        Fields.buildRow Examples.fieldMaps Examples.balance_doc Examples.balance_cf
        = Ok row
        /\ FieldName row = "Balance__c"
        /\ ProfilesAndPermSets row = "Profile: Admin.profile-meta.xml")
  /\ ProfilesAndPermSets (Standard.standardRow Examples.accessMaps field)
     = "Profile: Admin.profile-meta.xml"
  /\ References (Standard.standardRow Examples.accessMaps field)
     = "PermSet: Support.permissionset-meta.xml".
Proof.
  cbv zeta. split; [|split; [|split; [|split]]]; try (vm_compute; reflexivity).
  eexists. split; [vm_compute; reflexivity|]. split; reflexivity.
Qed.

End AccessControl.

(* ===================================================================== *)
(** * The properties on the sample repositories *)
(* ===================================================================== *)

Section Samples.
Import Value Examples.

(** A batch with two rootless documents among four is assembled into the
    rows of the other two. *)
Lemma processFields_skips_rootless_witness :
  let files := ["Priority__c"; "Other"; "Empty"; "Balance__c"] in
  let docs := [priority_doc; other_doc; empty_root_doc; balance_doc] in
  Fields.existsSync (world true files) fieldsPath = true
  /\ files <> []
  /\ exists rowss,
       snd (Fields.processFields (world true files) fieldsPath fieldMaps true [])
       = Ok (concat rowss)
       /\ Forall2 (doc_rows fieldMaps) docs rowss.
Proof.
  cbv zeta. split; [reflexivity|]. split; [discriminate|].
  apply (processFields_skips_rootless
           (world true ["Priority__c"; "Other"; "Empty"; "Balance__c"])
           fieldsPath fieldMaps true []
           ["Priority__c"; "Other"; "Empty"; "Balance__c"]
           [priority_doc; other_doc; empty_root_doc; balance_doc]).
  - reflexivity.
  - reflexivity.
  - discriminate.
  - repeat constructor; eexists; split; reflexivity.
  - repeat constructor.
Defined.

(** C2 as stated fails: with every document read, one of which the parser
    rejects, the call raises the parser's error and returns no rows. *)
Lemma processFields_malformed_counterexample :
  ~ (forall w path maps verbose tr files,
       Fields.existsSync w path = true ->
       Fields.fg w [Fields.fieldGlob path] = Ok files ->
       files <> [] ->
       Forall (fun file => exists text, Fields.readFile w file = Ok text) files ->
       exists rows, snd (Fields.processFields w path maps verbose tr) = Ok rows).
Proof.
  intros H.
  destruct (H (world true ["Priority__c"; "Broken"; "Balance__c"])
              fieldsPath fieldMaps true []
              ["Priority__c"; "Broken"; "Balance__c"]) as [rows E].
  - reflexivity.
  - reflexivity.
  - discriminate.
  - repeat constructor; eexists; reflexivity.
  - vm_compute in E. discriminate E.
Qed.

(** A remote "status__c" is suppressed by the local "Status__c"; a remote
    "Priority__c" is appended with its data type and the usage columns of
    the local priority field. *)
Lemma merge_pair_contribution_witness :
  let suppressed := {| Standard.QualifiedApiName := "status__c";
                       Standard.DataType := "Picklist" |} in
  let fresh := {| Standard.QualifiedApiName := "Priority__c";
                  Standard.DataType := "Picklist" |} in
  Standard.mergeStandardFields [statusRow] [suppressed] accessMaps = [statusRow]
  /\ exists row local,
       Standard.mergeStandardFields [statusRow] [fresh] (corpora usageMaps)
       = [statusRow; row]
       /\ Fields.buildRow usageMaps priority_doc priority_cf = Ok local
       /\ FieldName row = "Priority__c" /\ FieldType row = "Picklist"
       /\ PicklistValues row = "" /\ PicklistValues local = "High, Low"
       /\ Layouts row = Layouts local
       /\ Layouts local = "Case-Support.layout-meta.xml"
       /\ References row = References local
       /\ References local
          = "Apex: PriorityService.cls;" +:+ Search.newline +:+ "LWC: priorityBadge.js".
Proof.
  cbv zeta. split.
  - apply (proj1 (merge_pair_contribution [statusRow] accessMaps
                    {| Standard.QualifiedApiName := "status__c";
                       Standard.DataType := "Picklist" |} [] [])).
    left. exists statusRow. split; [left | reflexivity].
  - destruct (proj2 (merge_pair_contribution [statusRow] (corpora usageMaps)
                       {| Standard.QualifiedApiName := "Priority__c";
                          Standard.DataType := "Picklist" |} [] []))
      as (row & E & Hn & Ht & _ & _ & _ & _ & _ & Hv & _ & _ & _ & _ & _ & _ & _ & Hl).
    + intros (r & Hr & Hs). apply list_elem_of_In in Hr.
      destruct Hr as [<-|[]]. vm_compute in Hs. discriminate Hs.
    + discriminate.
    + destruct (Hl usageMaps priority_doc priority_cf _ eq_refl eq_refl eq_refl)
        as (HL & _ & _ & HR).
      exists row. eexists. split; [exact E|]. split; [vm_compute; reflexivity|].
      split; [exact Hn|]. split; [exact Ht|]. split; [exact Hv|].
      split; [reflexivity|]. split; [exact HL|]. split; [reflexivity|].
      split; [|reflexivity]. apply HR.
      * intros k text Hk. cbn in Hk.
        destruct (String.eqb k "Admin.profile-meta.xml"); [|discriminate].
        injection Hk as <-. vm_compute. reflexivity.
      * intros k text Hk. cbn in Hk.
        destruct (String.eqb k "Support.permissionset-meta.xml"); [|discriminate].
        injection Hk as <-. vm_compute. reflexivity.
Defined.

(** Where a permission set names the field, the merger's References list
    it, which those of the local row of the same field do not. *)
Lemma merge_references_scan_access_corpora :
  exists local row,
    Fields.buildRow fieldMaps balance_doc balance_cf = Ok local
    /\ Standard.mergeStandardFields []
         [{| Standard.QualifiedApiName := "Balance__c";
             Standard.DataType := "Currency" |}] (corpora fieldMaps) = [row]
    /\ References local = ""
    /\ References row = "PermSet: Support.permissionset-meta.xml".
Proof. do 2 eexists. repeat split; vm_compute; reflexivity. Qed.

(** C5 as stated fails: a pair with an empty apiName matches no local
    FieldName, yet no row is appended for it. *)
Lemma merge_empty_name_counterexample :
  ~ (forall rows maps p,
       ~ name_taken rows (Standard.QualifiedApiName p) ->
       exists row, Standard.mergeStandardFields rows [p] maps = rows ++ [row]).
Proof.
  intros H.
  destruct (H [] emptyMaps
              {| Standard.QualifiedApiName := ""; Standard.DataType := "Text" |})
    as [row E].
  - intros (r & Hr & _). by apply elem_of_nil in Hr.
  - vm_compute in E. discriminate E.
Qed.

(** The four shapes of a picklist: literal names alone; literal names
    (one value unnamed) together with a shared value set and a controlling
    field; a shared value set alone; and no value set at all. *)
Lemma picklist_precedence_witness :
  (exists row,
      Fields.buildRow fieldMaps priority_doc priority_cf = Ok row
      /\ literal_value_names priority_cf = ["High"; "Low"]
      /\ PicklistValues row = "High, Low"
      /\ ControllingField row = "")
  /\ (exists row,
        Fields.buildRow fieldMaps tier_doc tier_cf = Ok row
        /\ literal_value_names tier_cf = ["Gold"; "Silver"]
        /\ shared_value_set_name tier_cf = Some (VStr "Tiers")
        /\ PicklistValues row = "Gold, Silver"
        /\ ControllingField row = "Segment__c")
  /\ (exists row,
        Fields.buildRow fieldMaps region_doc region_cf = Ok row
        /\ literal_value_names region_cf = []
        /\ PicklistValues row = "Regions"
        /\ ControllingField row = "Country__c")
  /\ (exists row,
        Fields.buildRow fieldMaps balance_doc balance_cf = Ok row
        /\ literal_value_names balance_cf = []
        /\ shared_value_set_name balance_cf = None
        /\ PicklistValues row = ""
        /\ ControllingField row = "").
Proof.
  split; [|split; [|split]].
  - eexists. split; [vm_compute; reflexivity|]. split; [reflexivity|].
    destruct (picklist_precedence fieldMaps priority_doc priority_cf _ eq_refl)
      as (H1 & _ & _ & H4).
    split; [|exact H4]. apply H1. discriminate.
  - eexists. split; [vm_compute; reflexivity|]. split; [reflexivity|].
    split; [reflexivity|].
    destruct (picklist_precedence fieldMaps tier_doc tier_cf _ eq_refl)
      as (H1 & _ & _ & H4).
    split; [|exact H4]. apply H1. discriminate.
  - eexists. split; [vm_compute; reflexivity|]. split; [reflexivity|].
    destruct (picklist_precedence fieldMaps region_doc region_cf _ eq_refl)
      as (_ & H2 & _ & H4).
    split; [exact (H2 eq_refl eq_refl) | exact H4].
  - eexists. split; [vm_compute; reflexivity|]. split; [reflexivity|].
    split; [reflexivity|].
    destruct (picklist_precedence fieldMaps balance_doc balance_cf _ eq_refl)
      as (_ & _ & H3 & H4).
    split; [exact (H3 eq_refl eq_refl) | exact H4].
Defined.

(** A currency field with precision, scale and a stray length. *)
Lemma field_length_rule_witness :
  exists row,
    Fields.buildRow fieldMaps amount_doc amount_cf = Ok row
    /\ JS.trim (FieldType row) = "Currency"
    /\ FieldLength row = "18, 2".
Proof.
  eexists. split; [vm_compute; reflexivity|]. split; [reflexivity|].
  destruct (field_length_rule fieldMaps amount_doc amount_cf _ eq_refl)
    as (_ & H2 & _).
  apply H2. right. left.
Defined.

(** C8 as stated fails: the type "Text " (trailing blank) is none of the
    five types, yet the length is reported. *)
Lemma field_length_padded_type_counterexample :
  ~ (forall maps xml cf row,
       Fields.buildRow maps xml cf = Ok row ->
       FieldType row ∉ ["Text"; "Html"; "LongTextArea"; "Number"; "Currency"] ->
       FieldLength row = "").
Proof.
  intros H.
  assert (E : exists row, Fields.buildRow fieldMaps padded_doc padded_cf = Ok row
                          /\ FieldType row = "Text " /\ FieldLength row = "80").
  { eexists. split; [vm_compute; reflexivity|]. split; reflexivity. }
  destruct E as (row & Hb & Ht & Hl).
  specialize (H _ _ _ _ Hb). rewrite Ht, Hl in H. discriminate H.
  rewrite !elem_of_cons, elem_of_nil. intros [E|[E|[E|[E|[E|[]]]]]]; discriminate E.
Qed.

(** A repository without the fields directory, and one whose directory
    holds no field document. *)
Lemma processFields_configuration_errors_witness :
  Fields.processFields (world false []) fieldsPath fieldMaps true []
  = ([Fields.EvExists fieldsPath],
     Throw (Error (Fields.notFoundMessage fieldsPath)))
  /\ snd (Fields.processFields (world true []) fieldsPath fieldMaps true [])
     = Throw (Error (Fields.noFilesMessage fieldsPath))
  /\ documents_read
       (fst (Fields.processFields (world true []) fieldsPath fieldMaps true []))
     = [].
Proof.
  destruct (processFields_configuration_errors
              (world false []) fieldsPath fieldMaps true []) as [Ha _].
  destruct (processFields_configuration_errors
              (world true []) fieldsPath fieldMaps true []) as [_ Hb].
  destruct (Ha eq_refl) as (H1 & _ & H2 & _).
  destruct (Hb eq_refl eq_refl) as (H3 & _ & _ & H4).
  split; [|split; [exact H3 | exact H4]].
  rewrite (surjective_pairing (Fields.processFields _ _ _ _ _)), H1, H2. reflexivity.
Defined.

End Samples.

(* ===================================================================== *)
(** * Further properties *)
(* ===================================================================== *)

(** ** The matcher in its other modes *)

Section MatcherModes.
Import Notions.

(** X1: whatever characters the field name holds, the pattern built from
    its escaped form compiles, for either flag, to a word boundary, the
    name's characters as literals, and a word boundary: no character of
    the name acts as a pattern operator. *)
Theorem escaped_name_is_literal (f : string) (ic : bool) :
  RegExp.new ("\b" +:+ escape f +:+ "\b") (if ic then "i" else "")
  = Some {| source := WordBoundary :: literal f ++ [WordBoundary];
            ignoreCaseFlag := ic |}.
Proof. unfold RegExp.new. rewrite parse_pattern. by destruct ic. Qed.

Lemma canon_str_false s : canon_str false s = s.
Proof. induction s as [|c s IH]; cbn; [done|]. by rewrite IH. Qed.

Lemma toLowerCase_app a b :
  JS.toLowerCase (a +:+ b) = JS.toLowerCase a +:+ JS.toLowerCase b.
Proof. induction a as [|c a IH]; sapp; cbn [JS.toLowerCase]; sapp; [done|]. by rewrite IH. Qed.

(** X2: with [wholeWord: false] the matcher is a plain substring test,
    on the lower-cased text and name unless [ignoreCase] is false, and it
    still answers false for an empty text or name. *)
Theorem containsField_substring_mode text f ic :
  containsField text f {| ignoreCase := ic; wholeWord := Some false |} = Some true
  <-> text <> "" /\ f <> ""
      /\ exists pre post,
           if default true ic
           then JS.toLowerCase text = pre +:+ JS.toLowerCase f +:+ post
           else text = pre +:+ f +:+ post.
Proof.
  unfold containsField. cbn [ignoreCase wholeWord default negb].
  rewrite <- !truthy_str_iff.
  destruct (JS.truthy_str text), (JS.truthy_str f); cbn [negb orb];
    try (split; [discriminate | intros (? & ? & _); discriminate]).
  destruct (default true ic).
  - rewrite <- includes_prefix_or_later. split; [intros [= ->]; auto | intros (_ & _ & ->); done].
  - rewrite <- includes_prefix_or_later. split; [intros [= ->]; auto | intros (_ & _ & ->); done].
Qed.

(** X3: with [ignoreCase: false] a whole-word match is an occurrence of
    the name exactly as spelled, with a word boundary on both sides. *)
Theorem containsField_case_sensitive_whole_word text f ww :
  default true ww = true ->
  (containsField text f {| ignoreCase := Some false; wholeWord := ww |} = Some true
   <-> text <> "" /\ f <> ""
       /\ exists pre post,
            text = pre +:+ f +:+ post
            /\ word_boundary (last_char pre) (head_char (f +:+ post))
            /\ word_boundary (last_char (pre +:+ f)) (head_char post)).
Proof.
  intros Hww. unfold containsField. cbn [ignoreCase wholeWord default]. rewrite Hww.
  cbn [negb]. rewrite <- !truthy_str_iff.
  destruct (JS.truthy_str text), (JS.truthy_str f); cbn [negb orb];
    try (split; [discriminate | intros (? & ? & _); discriminate]).
  change (if id false then "i" else "") with "".
  rewrite (escaped_name_is_literal f false). cbn [mbind option_bind].
  unfold RegExp.test. cbn [ignoreCaseFlag source].
  split.
  - intros [= H]. split; [done|]. split; [done|].
    apply search_spec in H as (pre & post0 & -> & H). cbn [match_here] in H.
    apply andb_true_iff in H as [Hb H].
    apply match_literal in H as (mid & post & -> & Hc & H).
    rewrite !canon_str_false in Hc. subst mid.
    cbn [match_here] in H. rewrite andb_true_r in H.
    exists pre, post. rewrite last_char_app. rewrite last_or_None in *.
    split; [done|]. split; by apply xorb_boundary.
  - intros (_ & _ & pre & post & -> & Hl & Hr). f_equal.
    apply search_spec. exists pre, (f +:+ post). split; [done|].
    rewrite last_or_None. cbn [match_here]. apply andb_true_iff.
    split; [by apply xorb_boundary|].
    apply match_literal. exists f, post. split; [done|]. split; [done|].
    cbn [match_here]. rewrite andb_true_r, <- last_char_app. by apply xorb_boundary.
Qed.

Lemma default_true_occurrence text f :
  containsField text f defaultOpts = Some true
  <-> text <> "" /\ f <> "" /\ whole_word_occurrence text f.
Proof.
  rewrite containsField_default, <- !truthy_str_iff, <- whole_word_search.
  destruct (JS.truthy_str text), (JS.truthy_str f); cbn;
    (split; [intros H | intros (? & ? & H)]); try discriminate; auto.
  - by injection H.
  - by rewrite H.
Qed.

(** X4: for a field name of ASCII characters, whatever matches as a
    whole word also matches in substring mode: there the default mode
    only narrows the substring mode.  (For other names the two modes fold
    case differently, the pattern by upper-casing single code units, the
    substring test by [toLowerCase], and neither contains the other.) *)
Theorem whole_word_implies_substring text f :
  is_ascii f = true ->
  containsField text f defaultOpts = Some true ->
  containsField text f {| ignoreCase := Some true; wholeWord := Some false |} = Some true.
Proof.
  intros _ H. apply default_true_occurrence in H
    as (Ht & Hf & pre & mid & post & -> & Hm & _).
  apply containsField_substring_mode. split; [done|]. split; [done|].
  exists (JS.toLowerCase pre), (JS.toLowerCase post). cbn.
  rewrite !toLowerCase_app. by rewrite Hm.
Qed.

Lemma word_upper c : is_word_char (upper_char c) = is_word_char c.
Proof. all_chars c; reflexivity. Qed.

Lemma word_of_canon c c' : upper_char c = upper_char c' -> is_word_char c = is_word_char c'.
Proof. intros H. by rewrite <- (word_upper c), H, word_upper. Qed.

Lemma head_word_canon s s' :
  canon_str true s = canon_str true s' ->
  is_word_at (head_char s) = is_word_at (head_char s').
Proof.
  destruct s, s'; cbn; try done. intros [= H _]. by apply word_of_canon.
Qed.

Lemma match_here_canon ts ts' :
  Forall2 term_eqv ts ts' ->
  forall prev prev' input input',
    canon_str true input = canon_str true input' ->
    is_word_at prev = is_word_at prev' ->
    match_here true ts prev input = match_here true ts' prev' input'.
Proof.
  induction 1 as [|t t' ts ts' Ht _ IH]; intros prev prev' input input' Hi Hp; [done|].
  destruct Ht as [|c c' Hc]; cbn [match_here].
  - by rewrite Hp, (head_word_canon _ _ Hi), (IH prev prev' input input').
  - destruct input as [|d r], input' as [|d' r']; try done.
    cbn in Hi. injection Hi as Hd Hr. cbn [canonicalize].
    rewrite Hc, Hd. f_equal. apply IH; [done|]. cbn. by apply word_of_canon.
Qed.

Lemma search_canon ts ts' :
  Forall2 term_eqv ts ts' ->
  forall input input' prev prev',
    canon_str true input = canon_str true input' ->
    is_word_at prev = is_word_at prev' ->
    search true ts prev input = search true ts' prev' input'.
Proof.
  intros Hts. induction input as [|d r IH]; intros input' prev prev' Hi Hp;
    destruct input' as [|d' r']; try done; cbn [search].
  - rewrite (match_here_canon _ _ Hts prev prev' "" ""); [done|done|done].
  - cbn in Hi. injection Hi as Hd Hr.
    rewrite (match_here_canon _ _ Hts prev prev' (String d r) (String d' r'));
      [|by cbn; rewrite Hd, Hr|done].
    f_equal. apply IH; [done|]. cbn. by apply word_of_canon.
Qed.

Lemma literal_eqv f f' :
  canon_str true f = canon_str true f' -> Forall2 term_eqv (literal f) (literal f').
Proof.
  revert f'. induction f as [|c f IH]; intros [|c' f']; cbn; try discriminate.
  - constructor.
  - intros [= Hc Hf]. constructor; [by constructor | by apply IH].
Qed.

Lemma truthy_canon s s' :
  canon_str true s = canon_str true s' -> JS.truthy_str s = JS.truthy_str s'.
Proof. by destruct s, s'. Qed.

Lemma upper_fold c : upper_char (fold_ascii_char c) = upper_char c.
Proof. all_chars c; reflexivity. Qed.

Lemma canon_of_fold s s' :
  same_up_to_ascii_case s s' -> canon_str true s = canon_str true s'.
Proof.
  unfold same_up_to_ascii_case. revert s'.
  induction s as [|c s IH]; intros [|c' s']; cbn; try discriminate; [done|].
  intros [= Hc Hs]. rewrite (IH _ Hs). f_equal.
  by rewrite <- (upper_fold c), Hc, upper_fold.
Qed.

(** X5: the default matcher depends on its text and on the name only up
    to the case of the ASCII letters: changing the case of letters A to
    Z, in the text or in the name, never changes the answer. *)
Theorem matches_up_to_ascii_case text text' f f' :
  same_up_to_ascii_case text text' ->
  same_up_to_ascii_case f f' ->
  matches text f = matches text' f'.
Proof.
  intros Ht%canon_of_fold Hf%canon_of_fold. unfold matches.
  rewrite !containsField_default, (truthy_canon _ _ Ht), (truthy_canon _ _ Hf).
  destruct (negb (JS.truthy_str text') || negb (JS.truthy_str f')); [done|].
  apply search_canon; [|done|done].
  constructor; [constructor|]. apply Forall2_app; [by apply literal_eqv|].
  repeat constructor.
Qed.
End MatcherModes.

(** ** Scanning the corpora *)

Section SearchProps.
Import Value Search.

Lemma assoc_entry {A} (m : list (string * A)) k v :
  NoDup (map fst m) -> (k, v) ∈ m -> assoc k m = Some v.
Proof.
  induction m as [|[k' v'] m IH]; intros Hd Hin; [by apply elem_of_nil in Hin|].
  cbn in Hd. apply NoDup_cons in Hd as [Hk Hd]. cbn [assoc].
  apply elem_of_cons in Hin as [[= -> ->]|Hin].
  - by rewrite String.eqb_refl.
  - destruct (String.eqb_spec k k') as [->|_]; [|by apply IH].
    exfalso. apply Hk. apply (list_elem_of_fmap_2 fst) in Hin. exact Hin.
Qed.

Lemma filter_ext_in {A} (p q : A -> bool) l :
  (forall x, x ∈ l -> p x = q x) -> List.filter p l = List.filter q l.
Proof.
  induction l as [|x l IH]; intros H; [done|]. cbn.
  rewrite (H x) by left. rewrite IH; [done|]. intros y Hy. apply H. by right.
Qed.

Lemma filter_map_fst {A B} (p : A -> bool) (l : list (A * B)) :
  map fst (List.filter (fun e => p (fst e)) l) = List.filter p (map fst l).
Proof. induction l as [|[a b] l IH]; [done|]. cbn. destruct (p a); cbn; by rewrite IH. Qed.

(** X6: on a corpus with distinct artifact names, [searchUsage] (which
    walks the entries) reports exactly the names that a key-by-key scan,
    as in [collectReferences], accepts, in the same order. *)
Theorem searchUsage_by_key m f :
  NoDup (keys m) ->
  searchUsage m f = JS.join "; " (List.filter (containsAt m f) (keys m)).
Proof.
  intros Hd. unfold searchUsage, keys. f_equal.
  rewrite <- filter_map_fst. f_equal. apply filter_ext_in.
  intros [k v] Hin. unfold containsAt. cbn. by rewrite (assoc_entry m k v).
Qed.

Lemma matches_empty_name text : matches text "" = false.
Proof.
  unfold matches. rewrite containsField_default. cbn. by rewrite orb_true_r.
Qed.

Lemma filter_none {A} (p : A -> bool) l :
  (forall x, p x = false) -> List.filter p l = [].
Proof. intros H. induction l as [|x l IH]; [done|]. cbn. by rewrite H. Qed.

Lemma scan_empty_name label m : scan label m "" = [].
Proof.
  unfold scan. rewrite filter_none; [done|]. intros k. unfold containsAt.
  destruct (assoc k m); [apply matches_empty_name | done].
Qed.

Lemma includes_empty text : JS.includes text "" = true.
Proof. by destruct text. Qed.

(** X7: for the empty name the usage and reference columns are empty,
    whatever the corpora hold, while the access-control list names every
    artifact whose text is not empty. *)
Theorem empty_identifier_columns (m : TextMap) apex flow vr dup report email extras
    label (acl : option TextMap) :
  searchUsage m "" = ""
  /\ collectReferences apex flow vr dup report email "" extras = ""
  /\ accessRefs label acl ""
     = map (fun k => label +:+ k)
         (List.filter (fun k => JS.truthy_str (default "" (assoc k (default [] acl))))
            (keys (default [] acl))).
Proof.
  split; [|split].
  - unfold searchUsage. rewrite filter_none; [done|]. intros e. apply matches_empty_name.
  - unfold collectReferences, collectReferences_list, scan_extra.
    rewrite !scan_empty_name.
    destruct extras as [[[?|] [?|] [?|] [?|]]|]; cbn; by rewrite ?scan_empty_name.
  - unfold accessRefs. f_equal. apply filter_ext_in. intros k _. unfold includesAt.
    destruct (assoc k (default [] acl)); cbn; [|done].
    by rewrite includes_empty, andb_true_r.
Qed.
End SearchProps.

(** ** Rows and batches *)

Section FieldProps.
Import Value Fields Notions.

(** The lookup [m[key] ?? ""]: a stored key answers with its value; a key
    that is neither stored nor inherited answers with the empty string;
    an inherited key that no record stored does not. *)
Lemma lastModifiedOf_stored (m : gmap string string) key v :
  m !! key = Some v -> lastModifiedOf m key = v.
Proof. unfold lastModifiedOf. by intros ->. Qed.

Lemma lastModifiedOf_absent (m : gmap string string) key :
  m !! key = None -> key <> "__proto__" -> key ∉ inheritedFunctions ->
  lastModifiedOf m key = "".
Proof.
  unfold lastModifiedOf, inheritedText. intros -> Hp Hf.
  destruct (String.eqb_spec key "__proto__"); [done|].
  by rewrite bool_decide_eq_false_2.
Qed.

Lemma lastModifiedOf_inherited :
  lastModifiedOf ∅ "constructor" = "function Object() { [native code] }"
  /\ lastModifiedOf ∅ "__proto__" = "[object Object]"
  /\ lastModifiedOf ∅ "priority__c" = "".
Proof. repeat split. Qed.

Lemma buildRow_inv maps xml cf row :
  buildRow maps xml cf = Ok row ->
  exists name desc track label type formula req,
    readXmlFieldValue xml ["CustomField"; "fullName"] = Ok name
    /\ readXmlFieldValue xml ["CustomField"; "type"] = Ok type
    /\ readXmlFieldValue xml ["CustomField"; "required"] = Ok req
    /\ (if String.eqb type "Lookup"
        then readXmlFieldValue xml ["CustomField"; "referenceTo"] = Ok (LookupRef row)
        else LookupRef row = "")
    /\ row = {| FieldName := name; FieldLabel := label; Description := desc;
                FieldType := type; Formula := formula;
                FieldLength := getFieldLength cf type;
                LookupRef := LookupRef row;
                Required := if String.eqb (JS.toLowerCase req) "true"
                            then "TRUE" else "FALSE";
                HistoryTracking := track;
                PicklistValues := values (getPicklistValues cf);
                ControllingField := controlling (getPicklistValues cf);
                LastModifiedDate :=
                  lastModifiedOf (lastModified maps) (JS.toLowerCase name);
                Layouts := Search.searchUsage (layout maps) name;
                Flexipages := Search.searchUsage (flexipage maps) name;
                RecordTypes := Search.searchUsage (recordType maps) name;
                References :=
                  Search.collectReferences (apex maps) (flow maps) (vr maps)
                    (dup maps) (report maps) (email maps) name
                    (Some {| Search.x_lwc := lwc maps; Search.x_aura := aura maps;
                             Search.x_profiles := None;
                             Search.x_permsets := None |});
                ProfilesAndPermSets :=
                  Search.profilesAndPermSets (profiles maps) (permsets maps) name |}.
Proof.
  unfold buildRow.
  destruct (readXmlFieldValue xml ["CustomField"; "fullName"]) as [name|];
    cbn [mbind result_bind]; [|discriminate].
  destruct (readXmlFieldValue xml ["CustomField"; "description"]) as [desc|];
    cbn [mbind result_bind]; [|discriminate].
  destruct (readXmlFieldValue xml ["CustomField"; "trackHistory"]) as [track|];
    cbn [mbind result_bind]; [|discriminate].
  destruct (readXmlFieldValue xml ["CustomField"; "label"]) as [label|];
    cbn [mbind result_bind]; [|discriminate].
  destruct (readXmlFieldValue xml ["CustomField"; "type"]) as [type|];
    cbn [mbind result_bind]; [|discriminate].
  destruct (readXmlFieldValue xml ["CustomField"; "formula"]) as [formula|];
    cbn [mbind result_bind]; [|discriminate].
  destruct (String.eqb type "Lookup") eqn:Ety.
  - destruct (readXmlFieldValue xml ["CustomField"; "referenceTo"]) as [ref|];
      cbn [mbind result_bind]; [|discriminate].
    destruct (readXmlFieldValue xml ["CustomField"; "required"]) as [req|];
      cbn [mbind result_bind]; [|discriminate].
    intros [= <-]. exists name, desc, track, label, type, formula, req.
    rewrite Ety. cbn. auto.
  - cbn [mbind result_bind].
    destruct (readXmlFieldValue xml ["CustomField"; "required"]) as [req|];
      cbn [mbind result_bind]; [|discriminate].
    intros [= <-]. exists name, desc, track, label, type, formula, req.
    rewrite Ety. cbn. auto.
Qed.

(** X8: the Required column is "TRUE" or "FALSE", and "TRUE" exactly
    when the required element reads "true" up to letter case. *)
Theorem required_column maps xml cf row :
  buildRow maps xml cf = Ok row ->
  (Required row = "TRUE" \/ Required row = "FALSE")
  /\ (Required row = "TRUE"
      <-> exists req,
            readXmlFieldValue xml ["CustomField"; "required"] = Ok req
            /\ same_ignoring_case req "true").
Proof.
  intros H. apply buildRow_inv in H
    as (name & desc & track & label & type & formula & req & _ & _ & Hreq & _ & ->).
  cbn [Required]. unfold same_ignoring_case. change (JS.toLowerCase "true") with "true".
  destruct (String.eqb_spec (JS.toLowerCase req) "true") as [E|E].
  - split; [by left|]. split; [eauto | done].
  - split; [by right|]. split; [done|]. intros (req' & Hreq' & E').
    rewrite Hreq in Hreq'. injection Hreq' as <-. done.
Qed.

(** X9: LookupRef is empty unless the type is exactly "Lookup" (not
    trimmed, case-sensitive), in which case it is the referenceTo
    element. *)
Theorem lookup_reference_column maps xml cf row :
  buildRow maps xml cf = Ok row ->
  (FieldType row <> "Lookup" -> LookupRef row = "")
  /\ (FieldType row = "Lookup" ->
      readXmlFieldValue xml ["CustomField"; "referenceTo"] = Ok (LookupRef row)).
Proof.
  intros H. apply buildRow_inv in H
    as (name & desc & track & label & type & formula & req & _ & _ & _ & Hl & E).
  assert (Ht : FieldType row = type) by (by rewrite E). rewrite Ht. clear E.
  destruct (String.eqb_spec type "Lookup"); split; intros; done.
Qed.

Lemma buildRow_text_root maps xml c s :
  get (Some xml) "CustomField" = Some (VStr (String c s)) ->
  buildRow maps xml (VStr (String c s))
  = Throw (TypeError ("Cannot use 'in' operator to search for 'fullName' in "
                      +:+ String c s)).
Proof.
  intros Hcf. destruct xml as [| |?|props]; try discriminate Hcf. cbn in Hcf.
  unfold buildRow, readXmlFieldValue. cbn [walk step truthy negb mbind result_bind].
  rewrite Hcf. reflexivity.
Qed.

Lemma loop_prefix w maps pre docs :
  Forall2 (parses_to w) pre docs ->
  Forall root_is_element docs ->
  forall rest results tr,
  exists tr' rowss,
    loop w maps (pre ++ rest) results tr = loop w maps rest (results ++ concat rowss) tr'
    /\ documents_read tr' = documents_read tr ++ pre
    /\ Forall2 (doc_rows maps) docs rowss.
Proof.
  induction 1 as [|file xml files docs (text & Hr & Hp) _ IH]; intros Hel rest results tr.
  - exists tr, []. cbn. by rewrite !app_nil_r.
  - apply Forall_cons in Hel as [Hx Hel].
    cbn [app loop]. unfold mbind at 1, M_bind at 1, call at 1. rewrite Hr.
    unfold mbind at 1, M_bind at 1, call at 1. rewrite Hp.
    set (tr1 := (tr ++ [EvRead file]) ++ [EvParse text]).
    assert (Htr1 : documents_read tr1 = documents_read tr ++ [file]).
    { unfold tr1. rewrite !documents_read_app. cbn. by rewrite app_nil_r. }
    unfold root_is_element in Hx.
    destruct (get (Some xml) "CustomField") as [cf|] eqn:Hcf.
    + destruct (truthy (Some cf)) eqn:Ht; cbn [negb].
      * destruct (buildRow_root_element maps xml cf Hcf) as [row Hrow].
        { intros c s ->. exact Hx. }
        unfold mbind at 1, M_bind at 1, lift at 1. rewrite Hrow.
        destruct (IH Hel rest (results ++ [row]) tr1) as (tr' & rowss & E & R & F).
        exists tr', ([row] :: rowss). split; [|split].
        -- rewrite E. cbn. by rewrite <- app_assoc.
        -- rewrite R, Htr1. by rewrite <- app_assoc.
        -- constructor; [|exact F]. unfold doc_rows, has_root. rewrite Hcf, Ht. eauto.
      * destruct (IH Hel rest results tr1) as (tr' & rowss & E & R & F).
        exists tr', ([] :: rowss). split; [exact E|]. split.
        -- rewrite R, Htr1. by rewrite <- app_assoc.
        -- constructor; [|exact F]. unfold doc_rows, has_root. by rewrite Hcf, Ht.
    + destruct (IH Hel rest results tr1) as (tr' & rowss & E & R & F).
      exists tr', ([] :: rowss). split; [exact E|]. split.
      -- rewrite R, Htr1. by rewrite <- app_assoc.
      -- constructor; [|exact F]. unfold doc_rows, has_root. by rewrite Hcf.
Qed.

Lemma loop_failing_document w maps bad e post results tr :
  doc_fails w bad e ->
  exists tr',
    loop w maps (bad :: post) results tr = (tr', Throw e)
    /\ documents_read tr' = documents_read tr ++ [bad].
Proof.
  intros [Hr|[(text & Hr & Hp)|(text & xml & c & s & Hr & Hp & Hcf & ->)]];
    cbn [loop]; unfold mbind at 1, M_bind at 1, call at 1; rewrite Hr.
  - eexists. split; [reflexivity|]. rewrite documents_read_app. cbn. by rewrite ?app_nil_r.
  - unfold mbind at 1, M_bind at 1, call at 1. rewrite Hp.
    eexists. split; [reflexivity|].
    rewrite !documents_read_app. cbn. by rewrite ?app_nil_r.
  - unfold mbind at 1, M_bind at 1, call at 1. rewrite Hp, Hcf.
    cbn [truthy JS.truthy_str String.eqb negb].
    unfold mbind at 1, M_bind at 1, lift at 1.
    rewrite (buildRow_text_root maps xml c s Hcf).
    eexists. split; [reflexivity|].
    rewrite !documents_read_app. cbn. by rewrite ?app_nil_r.
Qed.

Lemma processFields_enters_loop w path maps verbose tr f files :
  existsSync w path = true ->
  fg w [fieldGlob path] = Ok (f :: files) ->
  exists tr0,
    processFields w path maps verbose tr = loop w maps (f :: files) [] tr0
    /\ documents_read tr0 = documents_read tr.
Proof.
  intros He Hg. unfold processFields, mbind at 1, M_bind at 1, call at 1.
  rewrite He. cbn [negb]. unfold mbind at 1, M_bind at 1, call at 1. rewrite Hg.
  unfold mbind at 1, M_bind at 1, call at 1. eexists. split; [reflexivity|].
  rewrite !documents_read_app. cbn. by rewrite !app_nil_r.
Qed.

(** X10: the first document that cannot be read, that the parser
    rejects, or whose root element is bare text ends the run with that
    error: no rows are returned, and no later document is read. *)
Theorem processFields_first_failure_aborts w path maps verbose tr pre docs bad post e :
  existsSync w path = true ->
  fg w [fieldGlob path] = Ok (pre ++ bad :: post) ->
  Forall2 (parses_to w) pre docs ->
  Forall root_is_element docs ->
  doc_fails w bad e ->
  snd (processFields w path maps verbose tr) = Throw e
  /\ documents_read (fst (processFields w path maps verbose tr))
     = documents_read tr ++ pre ++ [bad].
Proof.
  intros He Hg Hp Hel Hbad.
  destruct (pre ++ bad :: post) as [|f files] eqn:Efiles; [by destruct pre|].
  destruct (processFields_enters_loop w path maps verbose tr f files He Hg)
    as (tr0 & -> & Htr0).
  rewrite <- Efiles.
  destruct (loop_prefix w maps pre docs Hp Hel (bad :: post) [] tr0)
    as (tr' & rowss & -> & Htr' & _).
  destruct (loop_failing_document w maps bad e post ([] ++ concat rowss) tr' Hbad)
    as (tr'' & -> & Htr'').
  split; [done|]. cbn [fst]. by rewrite Htr'', Htr', Htr0, <- app_assoc.
Qed.

(** X11: a run over documents that all parse reads each globbed file
    once, in glob order, and returns one row per document that has the
    root element. *)
Theorem processFields_reads_each_document_once w path maps verbose tr files docs :
  existsSync w path = true ->
  fg w [fieldGlob path] = Ok files ->
  files <> [] ->
  Forall2 (parses_to w) files docs ->
  Forall root_is_element docs ->
  documents_read (fst (processFields w path maps verbose tr))
  = documents_read tr ++ files
  /\ exists rows,
       snd (processFields w path maps verbose tr) = Ok rows
       /\ length rows = length (List.filter has_root docs).
Proof.
  intros He Hg Hne Hp Hel. destruct files as [|f files]; [done|].
  destruct (processFields_enters_loop w path maps verbose tr f files He Hg)
    as (tr0 & -> & Htr0).
  destruct (loop_prefix w maps (f :: files) docs Hp Hel [] [] tr0)
    as (tr' & rowss & E & Htr' & F).
  rewrite app_nil_r in E. rewrite E. cbn [loop fst snd mret M_ret].
  split; [by rewrite Htr', Htr0|].
  exists (concat rowss). split; [done|].
  clear -F. induction F as [|xml rows docs rowss Hd _ IH]; [done|].
  cbn [concat List.filter]. rewrite length_app, IH. unfold doc_rows in Hd.
  destruct (has_root xml); cbn.
  - destruct Hd as (cf & row & _ & _ & ->). done.
  - by rewrite Hd.
Qed.
End FieldProps.

(** ** Paths *)

Section Paths.
Import Value Fields Notions.

Lemma split_path_nonempty p : split_path p <> [].
Proof.
  destruct p as [|c r]; cbn; [done|]. destruct (is_sep c); [done|].
  by destruct (split_path r).
Qed.

(** X12: splitting a path at either separator and joining the segments
    with "/" gives the path's posix form. *)
Theorem split_join_is_toPosix p : JS.join "/" (split_path p) = toPosix p.
Proof.
  induction p as [|c r IH]; [done|]. cbn [split_path toPosix].
  pose proof (split_path_nonempty r) as Hne.
  destruct (is_sep c) eqn:Hc.
  - destruct (split_path r) as [|h t] eqn:E; [done|].
    change (JS.join "/" ("" :: h :: t)) with ("/" +:+ JS.join "/" (h :: t)).
    rewrite IH. unfold is_sep in Hc. apply orb_true_iff in Hc as [Hc|Hc];
      apply Ascii.eqb_eq in Hc; subst c; reflexivity.
  - destruct (split_path r) as [|h t] eqn:E; [done|].
    assert (Ascii.eqb c "\" = false) as ->.
    { unfold is_sep in Hc. by apply orb_false_iff in Hc as [_ ?]. }
    rewrite <- IH. by destruct t.
Qed.

Lemma toPosix_plain_char c : Ascii.eqb c "\" = false -> (if Ascii.eqb c "\" then "/"%char else c) = c.
Proof. by intros ->. Qed.

(** X13: [toPosix] is idempotent, keeps the length, leaves no backslash,
    and changes nothing in a path that has none. *)
Theorem toPosix_normalizes p :
  toPosix (toPosix p) = toPosix p
  /\ String.length (toPosix p) = String.length p
  /\ JS.includes (toPosix p) "\" = false
  /\ (JS.includes p "\" = false -> toPosix p = p).
Proof.
  split; [|split; [|split]].
  - induction p as [|c r IH]; [done|]. cbn. rewrite IH.
    destruct (Ascii.eqb_spec c "\"); [done|]. by destruct (Ascii.eqb_spec c "\").
  - induction p as [|c r IH]; [done|]. cbn. by rewrite IH.
  - induction p as [|c r IH]; [done|]. cbn [toPosix JS.includes String.prefix].
    rewrite IH, orb_false_r.
    destruct (Ascii.eqb_spec c "\") as [->|Hc]; [done|].
    destruct (ascii_dec "\" c); [congruence|done].
  - induction p as [|c r IH]; [done|]. cbn [toPosix JS.includes String.prefix].
    intros H. apply orb_false_iff in H as [H1 H2]. rewrite (IH H2).
    destruct (Ascii.eqb_spec c "\") as [->|Hc]; [|done].
    exfalso. cbn in H1. by destruct r.
Qed.

Lemma split_path_sep a sep b :
  is_sep sep = true ->
  split_path (a +:+ String sep b) = split_path a ++ split_path b.
Proof.
  intros Hs. induction a as [|c a IH]; sapp; cbn [split_path].
  - by rewrite Hs.
  - rewrite IH. destruct (is_sep c); [done|].
    pose proof (split_path_nonempty a). by destruct (split_path a).
Qed.

Lemma split_path_plain s : plain_segment s = true -> split_path s = [s].
Proof.
  induction s as [|c s IH]; [done|]. cbn. intros [Hc Hs]%andb_true_iff.
  apply negb_true_iff in Hc. by rewrite Hc, (IH Hs).
Qed.

(** X14: for a path ending in [<object>/<leaf>] (either separator) the
    segment quoted in the "Fields folder not found" message is the
    object's; for a path without separator it is the text "undefined". *)
Theorem not_found_message_names_object dir sep1 obj sep2 leaf :
  is_sep sep1 = true -> is_sep sep2 = true ->
  plain_segment obj = true -> plain_segment leaf = true ->
  parent_segment (dir +:+ String sep1 (obj +:+ String sep2 leaf)) = obj
  /\ parent_segment leaf = "undefined".
Proof.
  intros H1 H2 Ho Hl. unfold parent_segment. split.
  - rewrite (split_path_sep dir sep1) by done. rewrite (split_path_sep obj sep2) by done.
    rewrite (split_path_plain obj Ho), (split_path_plain leaf Hl).
    by rewrite !rev_app_distr.
  - by rewrite (split_path_plain leaf Hl).
Qed.
End Paths.

(** ** The last-modified dictionary *)

Section Trim.
Import Value IO Notions.

Lemma trimStart_head s :
  match head_char (JS.trimStart s) with
  | Some c => JS.is_space c = false
  | None => True
  end.
Proof.
  induction s as [|c r IH]; [done|]. cbn [JS.trimStart].
  destruct (JS.is_space c) eqn:E; [exact IH | exact E].
Qed.

Lemma trimStart_fixed s :
  match head_char s with Some c => JS.is_space c = false | None => True end ->
  JS.trimStart s = s.
Proof. destruct s as [|c r]; [done|]. cbn. by intros ->. Qed.

Lemma trimEnd_head s c r :
  s = String c r -> JS.is_space c = false ->
  exists r', JS.trimEnd s = String c r'.
Proof.
  intros -> Hc. cbn [JS.trimEnd]. destruct (JS.trimEnd r); rewrite ?Hc; eauto.
Qed.

Lemma trimEnd_idempotent s : JS.trimEnd (JS.trimEnd s) = JS.trimEnd s.
Proof.
  induction s as [|c r IH]; [done|]. cbn [JS.trimEnd].
  destruct (JS.trimEnd r) as [|d e] eqn:E.
  - destruct (JS.is_space c) eqn:Hc; [done|]. cbn. by rewrite Hc.
  - cbn [JS.trimEnd] in *. by rewrite IH.
Qed.

Lemma trim_idempotent s : JS.trim (JS.trim s) = JS.trim s.
Proof.
  unfold JS.trim. pose proof (trimStart_head s) as H.
  destruct (JS.trimStart s) as [|c r] eqn:E; [done|]. cbn [head_char] in H.
  destruct (trimEnd_head (String c r) c r eq_refl H) as [r' Hr'].
  rewrite Hr'. rewrite trimStart_fixed by (cbn; exact H).
  rewrite <- Hr'. apply trimEnd_idempotent.
Qed.

Lemma column_trimmed row name : JS.trim (column row name) = column row name.
Proof. apply trim_idempotent. Qed.

End Trim.

Section LastModified.
Import Value IO Notions Run.

Lemma lower_lower c : JS.lower_char (JS.lower_char c) = JS.lower_char c.
Proof. all_chars c; reflexivity. Qed.

Lemma toLowerCase_idempotent s : JS.toLowerCase (JS.toLowerCase s) = JS.toLowerCase s.
Proof. induction s as [|c s IH]; [done|]. cbn. by rewrite lower_lower, IH. Qed.

Lemma assign_lookup m key v k :
  assign m key v !! k =
  if decide (key = k /\ key <> "__proto__") then Some v else m !! k.
Proof.
  unfold assign. destruct (String.eqb_spec key "__proto__") as [->|Hn].
  - by rewrite decide_False by tauto.
  - destruct (decide (key = k)) as [->|Hk].
    + by rewrite lookup_insert_eq, decide_True.
    + by rewrite lookup_insert_ne, decide_False by tauto.
Qed.

Lemma addRecord_lookup m row k :
  addRecord m row !! k =
  if decide (writes row k) then Some (column row "LastModifiedDate") else m !! k.
Proof.
  unfold addRecord.
  destruct (JS.truthy_str (column row "DeveloperName")) eqn:Ht; cbn [negb].
  - apply truthy_str_iff in Ht. rewrite !assign_lookup.
    destruct (decide (writes row k)) as [(_ & Hp & [->| ->])|Hw].
    + case_decide; [done|]. by rewrite decide_True.
    + by rewrite decide_True.
    + rewrite !decide_False; [done|..]; intros [<- Hp]; apply Hw; unfold writes; auto.
  - rewrite decide_False; [done|]. intros [Hne _]. apply truthy_str_iff in Hne. congruence.
Qed.

Lemma fold_addRecord_snoc records row m :
  fold_left addRecord (records ++ [row]) m = addRecord (fold_left addRecord records m) row.
Proof. by rewrite fold_left_app. Qed.

Lemma lastModified_last_record_wins before row after k :
  (writes row k -> Forall (fun r => ~ writes r k) after ->
     fold_left addRecord (before ++ row :: after) ∅ !! k
     = Some (column row "LastModifiedDate"))
  /\ (Forall (fun r => ~ writes r k) (before ++ row :: after) ->
      fold_left addRecord (before ++ row :: after) ∅ !! k = None).
Proof.
  assert (G : forall rs m, Forall (fun r => ~ writes r k) rs ->
                           fold_left addRecord rs m !! k = m !! k).
  { induction rs as [|r rs IH]; intros m Hn; [done|].
    apply Forall_cons in Hn as [Hr Hn]. cbn [fold_left]. rewrite IH by done.
    rewrite addRecord_lookup. by rewrite decide_False. }
  split.
  - intros Hw Hafter. rewrite fold_left_app. cbn [fold_left].
    rewrite G by done. rewrite addRecord_lookup. by rewrite decide_True.
  - intros Hn. by rewrite G.
Qed.

Lemma lastModified_keys_lower_case records k :
  is_Some (fold_left addRecord records ∅ !! k) ->
  JS.toLowerCase k = k /\ exists row, row ∈ records /\ writes row k.
Proof.
  induction records as [|row records IH] using rev_ind; [by intros [? ?]|].
  rewrite fold_addRecord_snoc, addRecord_lookup. case_decide as Hw.
  - intros _. split.
    + destruct Hw as (_ & _ & [->| ->]); apply toLowerCase_idempotent.
    + exists row. split; [|done]. apply elem_of_app. right. by left.
  - intros H. destruct (IH H) as (Hk & r & Hr & Hw'). split; [done|].
    exists r. split; [|done]. apply elem_of_app. by left.
Qed.
End LastModified.

Section LastModifiedFile.
Import Value IO Notions Run.

Lemma buildLastModifiedMap_ok fs parse tempCsv verbose tr raw records :
  existsSync fs tempCsv = true ->
  readFileSync fs tempCsv = Ok raw ->
  parse raw = Ok records ->
  snd (buildLastModifiedMap fs parse tempCsv verbose tr)
  = Ok (fold_left addRecord records ∅).
Proof.
  intros He Hr Hp. unfold buildLastModifiedMap, mbind, IO.M_bind, emit, IO.call, mret, IO.M_ret.
  by rewrite He, Hr, Hp.
Qed.

(** X15: in the dictionary built from a CSV that is read and parsed, a
    key holds the date of the last record that stores under it (its
    trimmed developer name, or that name with "__c", lower-cased), and no
    entry when no record does. *)
Theorem buildLastModifiedMap_last_record_wins fs parse tempCsv verbose tr raw
    before row after k :
  existsSync fs tempCsv = true ->
  readFileSync fs tempCsv = Ok raw ->
  parse raw = Ok (before ++ row :: after) ->
  exists m,
    snd (buildLastModifiedMap fs parse tempCsv verbose tr) = Ok m
    /\ (writes row k -> Forall (fun r => ~ writes r k) after ->
        m !! k = Some (column row "LastModifiedDate"))
    /\ (Forall (fun r => ~ writes r k) (before ++ row :: after) -> m !! k = None).
Proof.
  intros He Hr Hp. eexists. split; [by apply (buildLastModifiedMap_ok _ _ _ _ _ raw)|].
  apply lastModified_last_record_wins.
Qed.

(** X16: without the CSV file the dictionary is empty and nothing is
    read; otherwise every key of the dictionary is lower-case and was
    stored by some record with a developer name. *)
Theorem buildLastModifiedMap_keys fs parse tempCsv verbose tr :
  (existsSync fs tempCsv = false ->
     buildLastModifiedMap fs parse tempCsv verbose tr
     = (tr ++ [ExistsSync tempCsv;
               LogInfo ("No LastModified CSV found at " +:+ tempCsv
                        +:+ "; continuing without LastModified dates.") verbose],
        Ok ∅))
  /\ (forall raw records m k,
        existsSync fs tempCsv = true ->
        readFileSync fs tempCsv = Ok raw ->
        parse raw = Ok records ->
        snd (buildLastModifiedMap fs parse tempCsv verbose tr) = Ok m ->
        is_Some (m !! k) ->
        JS.toLowerCase k = k /\ exists row, row ∈ records /\ writes row k).
Proof.
  split.
  - intros He. unfold buildLastModifiedMap, mbind, IO.M_bind, emit, IO.call, mret, IO.M_ret.
    rewrite He. cbn. by rewrite <- app_assoc.
  - intros raw records m k He Hr Hp Hm Hk.
    rewrite (buildLastModifiedMap_ok _ _ _ _ _ raw records He Hr Hp) in Hm.
    injection Hm as <-. by apply lastModified_keys_lower_case.
Qed.

(** X17: a field whose name equals a record's developer name, or that
    name followed by "__c", up to letter case, gets that record's date as
    LastModifiedDate, unless a later record stores under the same key. *)
Theorem lastModified_date_of_developer_name fs parse tempCsv verbose tr raw
    maps xml cf row before rec after :
  existsSync fs tempCsv = true ->
  readFileSync fs tempCsv = Ok raw ->
  parse raw = Ok (before ++ rec :: after) ->
  snd (buildLastModifiedMap fs parse tempCsv verbose tr) = Ok (Fields.lastModified maps) ->
  Fields.buildRow maps xml cf = Ok row ->
  column rec "DeveloperName" <> "" ->
  same_ignoring_case (FieldName row) (column rec "DeveloperName")
  \/ same_ignoring_case (FieldName row) (column rec "DeveloperName" +:+ "__c") ->
  JS.toLowerCase (FieldName row) <> "__proto__" ->
  Forall (fun r => ~ writes r (JS.toLowerCase (FieldName row))) after ->
  LastModifiedDate row = column rec "LastModifiedDate".
Proof.
  intros He Hr Hparse Hm Hb Hd Hs Hp Hafter.
  rewrite (buildLastModifiedMap_ok _ _ _ _ _ raw _ He Hr Hparse) in Hm.
  injection Hm as Hm.
  apply buildRow_inv in Hb
    as (name & desc & track & label & type & formula & req & _ & _ & _ & _ & E).
  assert (En : FieldName row = name) by (by rewrite E).
  assert (El : LastModifiedDate row
               = Fields.lastModifiedOf (Fields.lastModified maps) (JS.toLowerCase name))
    by (by rewrite E).
  rewrite El, <- En, <- Hm. unfold Fields.lastModifiedOf.
  rewrite (proj1 (lastModified_last_record_wins before rec after _)); [done| |done].
  unfold writes. split; [done|]. split; [done|]. exact Hs.
Qed.
End LastModifiedFile.

(** ** The CLI, the inventory and the standard-field step *)

Section Cli.
Import Value IO Notions Exec.

Lemma chooseBin_not_blank sfPath : JS.trim (chooseBin sfPath) <> "".
Proof.
  unfold chooseBin. destruct sfPath as [p|]; [|done].
  destruct (JS.truthy_str p && (0 <? String.length (JS.trim p))%nat) eqn:E; [|done].
  apply andb_true_iff in E as [_ E]. apply Nat.ltb_lt in E. intros H. rewrite H in E.
  cbn in E. lia.
Qed.

(** The one process [execSfStdout] starts. *)
Lemma execSfStdout_run p args verbose sfPath tr :
  exists logs file argv,
    execSfStdout p args verbose sfPath tr
    = (tr ++ logs ++ [ExecFile file argv], settle (execFile p file argv))
    /\ spawned logs = [] /\ csv_parsed logs = [] /\ warnings logs = []
    /\ (file, argv)
       = (if String.eqb (platform p) "win32"
          then ("cmd.exe", "/c" :: chooseBin sfPath :: args)
          else (chooseBin sfPath, args)).
Proof.
  unfold execSfStdout. destruct (String.eqb (platform p) "win32"), verbose;
    unfold mbind, M_bind, emit, call, mret, M_ret; cbn.
  - exists [ConsoleLog ("Running (Windows): cmd.exe "
                        +:+ JS.join " " (map shown ("/c" :: chooseBin sfPath :: args)))],
      "cmd.exe", ("/c" :: chooseBin sfPath :: args).
    by rewrite <- app_assoc.
  - by exists [], "cmd.exe", ("/c" :: chooseBin sfPath :: args).
  - exists [ConsoleLog ("Running (*nix): " +:+ chooseBin sfPath +:+ " "
                        +:+ JS.join " " (map shown args))],
      (chooseBin sfPath), args.
    by rewrite <- app_assoc.
  - by exists [], (chooseBin sfPath), args.
Qed.
End Cli.

Section CliProps.
Import Value IO Notions Exec Fetch Run.

Lemma spawned_app a b : spawned (a ++ b) = spawned a ++ spawned b.
Proof. apply omap_app. Qed.
Lemma csv_parsed_app a b : csv_parsed (a ++ b) = csv_parsed a ++ csv_parsed b.
Proof. apply omap_app. Qed.
Lemma warnings_app a b : warnings (a ++ b) = warnings a ++ warnings b.
Proof. apply omap_app. Qed.

(** X18: a call starts exactly one process, whose arguments end with the
    caller's, in order; the program run is never blank; and neither
    [verbose] nor what was logged before changes the outcome. *)
Theorem execSfStdout_spawns_once p args verbose sfPath tr :
  (exists file argv front,
      spawned (fst (execSfStdout p args verbose sfPath tr))
      = spawned tr ++ [(file, argv)]
      /\ argv = front ++ args
      /\ (file = chooseBin sfPath \/ chooseBin sfPath ∈ front)
      /\ snd (execSfStdout p args verbose sfPath tr) = settle (execFile p file argv))
  /\ JS.trim (chooseBin sfPath) <> ""
  /\ (forall verbose' tr',
        snd (execSfStdout p args verbose' sfPath tr')
        = snd (execSfStdout p args verbose sfPath tr)).
Proof.
  split; [|split; [apply chooseBin_not_blank|]].
  - destruct (execSfStdout_run p args verbose sfPath tr)
      as (logs & file & argv & -> & Hs & _ & _ & E).
    cbn [fst snd]. rewrite !spawned_app, Hs. cbn.
    destruct (String.eqb (platform p) "win32"); injection E as -> ->.
    + exists "cmd.exe", ("/c" :: chooseBin sfPath :: args), ["/c"; chooseBin sfPath].
      repeat split; try done. right. set_solver.
    + exists (chooseBin sfPath), args, []. repeat split; try done. by left.
  - intros verbose' tr'.
    destruct (execSfStdout_run p args verbose sfPath tr)
      as (logs & file & argv & -> & _ & _ & _ & E).
    destruct (execSfStdout_run p args verbose' sfPath tr')
      as (logs' & file' & argv' & -> & _ & _ & _ & E').
    cbn [snd]. rewrite <- E in E'. by injection E' as -> ->.
Qed.

(** X19: when the CLI fails, the fetch is rejected with the wrapped
    message and the CSV parser is never called; when it succeeds, there is
    one definition per CSV record, in order, and both its fields are
    already trimmed. *)
Theorem fetchFieldDefinitions_outcome p parse orgAlias objectName verbose sfPath tr o :
  (forall file argv, execFile p file argv = o) ->
  (forall msg, error o = Some msg ->
     snd (fetchFieldDefinitions p parse orgAlias objectName verbose sfPath tr)
     = Throw (Error ("Salesforce CLI failed. "
                     +:+ JS.trim (or_else (or_else (stderr o) msg) "")))
     /\ csv_parsed (fst (fetchFieldDefinitions p parse orgAlias objectName verbose sfPath tr))
        = csv_parsed tr)
  /\ (forall records, error o = None -> parse (stdout o) = Ok records ->
      snd (fetchFieldDefinitions p parse orgAlias objectName verbose sfPath tr)
      = Ok (map toFieldDef records)
      /\ Forall (fun d => JS.trim (Standard.QualifiedApiName d) = Standard.QualifiedApiName d
                          /\ JS.trim (Standard.DataType d) = Standard.DataType d)
           (map toFieldDef records)).
Proof.
  intros Ho. unfold fetchFieldDefinitions, mbind, M_bind.
  destruct (execSfStdout_run p (queryArgs orgAlias (fieldDefinitionQuery objectName))
              verbose sfPath tr) as (logs & file & argv & E & _ & Hc & _ & _).
  rewrite Ho in E. split.
  - intros msg He. rewrite E. unfold settle. rewrite He.
    cbn [fst snd]. split; [done|]. rewrite !csv_parsed_app, Hc. cbn. by rewrite app_nil_r.
  - intros records He Hp. rewrite E. unfold settle.
    rewrite He. unfold call, mret, M_ret. rewrite Hp. cbn [snd].
    split; [done|]. apply Forall_forall. intros d Hd.
    apply list_elem_of_fmap in Hd as (r & -> & _). cbn. split; apply column_trimmed.
Qed.

Lemma includeStandard_body p parse objectName orgAlias verbose results maps tr o :
  (forall file argv, execFile p file argv = o) ->
  exists tr1,
    warnings tr1 = warnings tr /\ csv_parsed tr1 = csv_parsed tr
    /\ includeStandardFields p parse objectName orgAlias verbose true results maps tr
       = match settle o with
         | Throw e =>
             (tr1 ++ [ConsoleWarn ("Warning: Failed to fetch FieldDefinition. "
                                   +:+ message e)], Ok results)
         | Ok out =>
             match parse out with
             | Throw e =>
                 ((tr1 ++ [CsvParse out])
                    ++ [ConsoleWarn ("Warning: Failed to fetch FieldDefinition. "
                                     +:+ message e)], Ok results)
             | Ok records =>
                 ((tr1 ++ [CsvParse out])
                    ++ [LogInfo ("Merged " +:+ Fields.decimal (length (map toFieldDef records))
                                 +:+ " standard fields (deduped against local metadata).")
                          verbose],
                  Ok (Standard.mergeStandardFields results (map toFieldDef records) maps))
             end
         end.
Proof.
  intros Ho. unfold includeStandardFields, try_catch.
  unfold mbind at 1, M_bind at 1, emit at 1, call at 1.
  destruct (execSfStdout_run p (queryArgs orgAlias (fieldDefinitionQuery objectName))
              verbose None
              (tr ++ [LogInfo "Fetching FieldDefinition for standard fields..." verbose]))
    as (logs & file & argv & E & _ & Hc & Hw & _).
  rewrite Ho in E. unfold mbind at 1, M_bind at 1. rewrite E.
  eexists. split; [|split; [|
    destruct (settle o) as [out|e]; [|reflexivity];
    unfold mbind, M_bind, emit, call, mret, M_ret;
    destruct (parse out) as [records|e]; reflexivity]].
  - rewrite !warnings_app, Hw. cbn. by rewrite !app_nil_r.
  - rewrite !csv_parsed_app, Hc. cbn. by rewrite !app_nil_r.
Qed.

(** X20: the standard-field step of [run] never throws, and what it
    returns always starts with the local rows; with the option off it
    returns them unchanged. *)
Theorem includeStandardFields_never_fatal p parse objectName orgAlias verbose
    includeStandard results maps tr o :
  (forall file argv, execFile p file argv = o) ->
  exists rows,
    snd (includeStandardFields p parse objectName orgAlias verbose includeStandard
           results maps tr) = Ok rows
    /\ take (length results) rows = results
    /\ (includeStandard = false -> rows = results).
Proof.
  intros Ho. destruct includeStandard.
  - destruct (includeStandard_body p parse objectName orgAlias verbose results maps tr o Ho)
      as (tr1 & _ & _ & ->).
    destruct (settle o) as [out|e].
    + destruct (parse out) as [records|e]; cbn [snd].
      * eexists. split; [done|]. split; [|done].
        by rewrite merge_unfold, take_app_length.
      * exists results. split; [done|]. split; [|done]. apply firstn_all.
    + exists results. split; [done|]. split; [|done]. apply firstn_all.
  - exists results. split; [done|]. split; [|done]. apply firstn_all.
Qed.

(** X21: when the CLI fails or its output cannot be parsed, the step
    returns exactly the local rows and warns once with the error's
    message; when both succeed it returns the merge and does not warn. *)
Theorem includeStandardFields_degrades p parse objectName orgAlias verbose
    results maps tr o :
  (forall file argv, execFile p file argv = o) ->
  let run := includeStandardFields p parse objectName orgAlias verbose true
               results maps tr in
  (forall msg, error o = Some msg ->
     snd run = Ok results
     /\ warnings (fst run)
        = warnings tr
          ++ ["Warning: Failed to fetch FieldDefinition. Salesforce CLI failed. "
              +:+ JS.trim (or_else (or_else (stderr o) msg) "")]
     /\ csv_parsed (fst run) = csv_parsed tr)
  /\ (forall e, error o = None -> parse (stdout o) = Throw e ->
      snd run = Ok results
      /\ warnings (fst run)
         = warnings tr ++ ["Warning: Failed to fetch FieldDefinition. " +:+ message e])
  /\ (forall records, error o = None -> parse (stdout o) = Ok records ->
      snd run = Ok (Standard.mergeStandardFields results (map toFieldDef records) maps)
      /\ warnings (fst run) = warnings tr).
Proof.
  intros Ho run. subst run.
  destruct (includeStandard_body p parse objectName orgAlias verbose results maps tr o Ho)
    as (tr1 & Hw & Hc & ->).
  unfold settle. split; [|split].
  - intros msg He. rewrite He. cbn [fst snd message].
    rewrite warnings_app, csv_parsed_app, Hw, Hc. cbn. by rewrite app_nil_r.
  - intros e He Hp. rewrite He, Hp. cbn [fst snd].
    rewrite !warnings_app, Hw. cbn. by rewrite app_nil_r.
  - intros records He Hp. rewrite He, Hp. cbn [fst snd].
    rewrite !warnings_app, Hw. cbn. by rewrite !app_nil_r.
Qed.

(** X22: a CSV record whose QualifiedApiName is missing or blank yields a
    definition that the merger drops. *)
Theorem blank_remote_name_skipped rows maps before r after :
  (assoc "QualifiedApiName" r = None
   \/ exists v, assoc "QualifiedApiName" r = Some v /\ JS.trim v = "") ->
  Standard.mergeStandardFields rows (map toFieldDef (before ++ r :: after)) maps
  = Standard.mergeStandardFields rows (map toFieldDef (before ++ after)) maps.
Proof.
  intros H.
  assert (E : column r "QualifiedApiName" = "").
  { unfold column. destruct H as [-> | (v & -> & Hv)]; [done | exact Hv]. }
  rewrite !merge_unfold, !map_app, !List.filter_app. cbn [map List.filter].
  assert (pushes (Standard.existingNames rows) (toFieldDef r) = false) as ->; [|done].
  unfold pushes, toFieldDef. cbn. by rewrite E.
Qed.

(** X23: whatever the inventory holds, no appended row has an empty name
    or a name that some local row carries up to case, and the merged list
    is at least as long as the local one and at most longer by the size
    of the inventory. *)
Theorem merge_never_shadows_local rows defs maps :
  Forall (fun r => FieldName r <> "" /\ ~ name_taken rows (FieldName r))
    (drop (length rows) (Standard.mergeStandardFields rows defs maps))
  /\ length rows <= length (Standard.mergeStandardFields rows defs maps)
  /\ length (Standard.mergeStandardFields rows defs maps) <= length rows + length defs.
Proof.
  rewrite merge_unfold, drop_app_length, length_app, length_map. split; [|split].
  - apply Forall_forall. intros r Hr. apply list_elem_of_fmap in Hr as (d & -> & Hd).
    rewrite list_elem_of_In, filter_In in Hd. destruct Hd as [_ Hd].
    apply pushes_true in Hd as [Hne Hn]. cbn [FieldName Standard.standardRow].
    split; [done|]. by rewrite name_taken_iff.
  - lia.
  - pose proof (filter_length_le (pushes (Standard.existingNames rows)) defs). lia.
Qed.
End CliProps.

(** ** The CSV exporter *)

Section CsvProps.
Import Value IO Notions Csv.

Lemma sapp_nil_r s : s +:+ "" = s.
Proof. induction s as [|c s IH]; sapp; [done|]. by rewrite IH. Qed.

Lemma sapp_assoc a b c : (a +:+ b) +:+ c = a +:+ (b +:+ c).
Proof. induction a as [|x a IH]; sapp; [done|]. by rewrite IH. Qed.

Lemma add_prefix_cons c s recs :
  add_prefix (String c "") (add_prefix s recs) = add_prefix (String c s) recs.
Proof. by destruct recs as [|[|f fs] rs]. Qed.

Lemma fmap_add_prefix_nil (x : option (list (list string))) :
  add_prefix "" <$> x = x.
Proof. by destruct x as [[|[|f fs] rs]|]. Qed.

Lemma decode_quoted_body s rest :
  decode_from InQuoted (doubleQuotes s +:+ dquote +:+ rest)
  = add_prefix s <$> decode_from AfterQuote rest.
Proof.
  induction s as [|c s IH]; cbn [doubleQuotes]; sapp.
  - unfold dquote. sapp. cbn [decode_from]. change (JS.code (ascii_of_nat 34) =? 34)%N with true.
    cbn iota. by rewrite fmap_add_prefix_nil.
  - destruct (JS.code c =? 34)%N eqn:E; sapp; cbn [decode_from]; rewrite E.
    + rewrite IH.
      destruct (decode_from AfterQuote rest); cbn; [|done]. by rewrite add_prefix_cons.
    + rewrite IH. destruct (decode_from AfterQuote rest); cbn; [|done].
      by rewrite add_prefix_cons.
Qed.

Lemma decode_cell s rest :
  decode_from AtStart (cell s +:+ rest) = add_prefix s <$> decode_from AfterQuote rest.
Proof.
  unfold cell. rewrite !sapp_assoc. unfold dquote at 1. sapp. cbn [decode_from].
  change (JS.code (ascii_of_nat 34) =? 34)%N with true. cbn iota.
  apply decode_quoted_body.
Qed.

Lemma join_cons2 sep (x y : string) l :
  JS.join sep (x :: y :: l) = x +:+ sep +:+ JS.join sep (y :: l).
Proof. reflexivity. Qed.

Lemma decode_line v vs tail recs :
  decode_from AfterQuote tail = Some ([""] :: recs) ->
  decode_from AtStart (JS.join "," (map cell (v :: vs)) +:+ tail)
  = Some ((v :: vs) :: recs).
Proof.
  intros Ht. revert v. induction vs as [|v' vs IH]; intros v.
  - cbn [map JS.join String.concat]. rewrite decode_cell, Ht. cbn. by rewrite sapp_nil_r.
  - cbn [map] in *. rewrite join_cons2, !sapp_assoc, decode_cell. sapp.
    cbn [decode_from]. change (JS.code "," =? 34)%N with false.
    change (JS.code "," =? 44)%N with true. cbn iota.
    rewrite IH. cbn. by rewrite sapp_nil_r.
Qed.

Lemma decode_rows (rows : list (list string)) :
  Forall (fun vals => vals <> []) rows ->
  decode_from AfterQuote
    (String.concat "" (map (fun vals => Search.newline +:+ JS.join "," (map cell vals)) rows))
  = Some ([""] :: rows).
Proof.
  induction 1 as [|vals rows Hv _ IH]; [done|].
  destruct vals as [|v vs]; [done|].
  set (ln := fun vals : list string =>
               Search.newline +:+ JS.join "," (map cell vals)) in *.
  change (map ln ((v :: vs) :: rows)) with (ln (v :: vs) :: map ln rows).
  assert (E : forall (x : string) l, String.concat "" (x :: l) = x +:+ String.concat "" l).
  { intros x [|y l]; cbn; [by rewrite sapp_nil_r | done]. }
  rewrite E. unfold ln at 1. rewrite sapp_assoc. unfold Search.newline at 1. sapp.
  cbn [decode_from].
  change (JS.code (ascii_of_nat 10) =? 34)%N with false.
  change (JS.code (ascii_of_nat 10) =? 44)%N with false.
  change (JS.code (ascii_of_nat 10) =? 10)%N with true. cbn iota.
  by rewrite (decode_line v vs _ rows IH).
Qed.

Lemma decode_plain_in h rest :
  plain_text h = true ->
  decode_from InPlain (h +:+ rest) = add_prefix h <$> decode_from InPlain rest.
Proof.
  induction h as [|c h IH]; intros Hp; sapp.
  - by rewrite fmap_add_prefix_nil.
  - cbn [plain_text] in Hp. apply andb_true_iff in Hp as [Hc Hp].
    apply andb_true_iff in Hc as [Hc H10]. apply andb_true_iff in Hc as [H34 H44].
    apply negb_true_iff in H34, H44, H10. cbn [decode_from]. rewrite H34, H44, H10, (IH Hp).
    destruct (decode_from InPlain rest); cbn; [|done]. by rewrite add_prefix_cons.
Qed.

Lemma decode_plain_start h rest :
  plain_name h = true ->
  decode_from AtStart (h +:+ rest) = add_prefix h <$> decode_from InPlain rest.
Proof.
  unfold plain_name. destruct h as [|c h]; [done|]. cbn [JS.truthy_str String.eqb negb andb].
  intros Hp. sapp. cbn [plain_text] in Hp. apply andb_true_iff in Hp as [Hc Hp].
  apply andb_true_iff in Hc as [Hc H10]. apply andb_true_iff in Hc as [H34 H44].
  apply negb_true_iff in H34, H44, H10. cbn [decode_from]. rewrite H34, H44, H10.
  rewrite (decode_plain_in h rest Hp).
  destruct (decode_from InPlain rest); cbn; [|done]. by rewrite add_prefix_cons.
Qed.

Lemma decode_header h hs tail recs :
  Forall (fun x => plain_name x = true) (h :: hs) ->
  decode_from InPlain tail = Some ([""] :: recs) ->
  decode_from AtStart (JS.join "," (h :: hs) +:+ tail) = Some ((h :: hs) :: recs).
Proof.
  intros Hp Ht. revert h Hp. induction hs as [|h' hs IH]; intros h Hp.
  - apply Forall_cons in Hp as [Hh _]. cbn [JS.join String.concat].
    rewrite (decode_plain_start h tail Hh), Ht. cbn. by rewrite sapp_nil_r.
  - apply Forall_cons in Hp as [Hh Hp]. rewrite join_cons2, !sapp_assoc.
    rewrite (decode_plain_start h _ Hh). sapp. cbn [decode_from].
    change (JS.code "," =? 34)%N with false. change (JS.code "," =? 44)%N with true.
    cbn iota. rewrite (IH h' Hp). cbn. by rewrite sapp_nil_r.
Qed.

Lemma decode_rows_plain (rows : list (list string)) :
  Forall (fun vals => vals <> []) rows ->
  decode_from InPlain
    (String.concat "" (map (fun vals => Search.newline +:+ JS.join "," (map cell vals)) rows))
  = Some ([""] :: rows).
Proof.
  intros H. rewrite <- (decode_rows rows H). destruct rows as [|vals rows]; [done|].
  set (ln := fun vals : list string =>
               Search.newline +:+ JS.join "," (map cell vals)).
  change (map ln (vals :: rows)) with (ln vals :: map ln rows).
  assert (E : forall (x : string) l, String.concat "" (x :: l) = x +:+ String.concat "" l).
  { intros x [|y l]; cbn; [by rewrite sapp_nil_r | done]. }
  rewrite E. unfold ln at 1 3. rewrite !sapp_assoc. unfold Search.newline. sapp. reflexivity.
Qed.

Lemma join_lines (x : string) l :
  JS.join Search.newline (x :: l)
  = x +:+ String.concat "" (map (fun y => Search.newline +:+ y) l).
Proof.
  revert x. induction l as [|y l IH]; intros x.
  - cbn. by rewrite sapp_nil_r.
  - rewrite join_cons2, IH. cbn [map].
    assert (E : forall (x : string) l, String.concat "" (x :: l) = x +:+ String.concat "" l).
    { intros z [|w k]; cbn; [by rewrite sapp_nil_r | done]. }
    by rewrite E, sapp_assoc.
Qed.

Lemma headers_plain rows : Forall (fun x => plain_name x = true) (headersOf rows).
Proof. destruct rows; repeat constructor. Qed.

Lemma content_round_trip rows :
  decode (content rows) = Some (headersOf rows :: map (cells (headersOf rows)) rows).
Proof.
  unfold decode, content, lines. rewrite join_lines.
  pose proof (headers_plain rows) as Hp.
  destruct (headersOf rows) as [|h hs] eqn:Eh; [by destruct rows|].
  assert (E : map (fun y => Search.newline +:+ y) (map (line (h :: hs)) rows)
              = map (fun vals => Search.newline +:+ JS.join "," (map cell vals))
                  (map (cells (h :: hs)) rows)).
  { rewrite !map_map. apply map_ext. intros r. unfold line, cells. by rewrite map_map. }
  rewrite E. apply decode_header; [done|].
  apply decode_rows_plain. apply Forall_forall. intros vals Hv.
  apply list_elem_of_fmap in Hv as (r & -> & _). done.
Qed.

(** X24: the exporter writes the file once, whether or not the old file
    could be removed, and succeeds exactly when that write does; reading
    the written text back gives the header and, for every row, its cells,
    whatever quotes, commas or line feeds they hold. *)
Theorem exportToCsv_round_trip fs rows outputCsv verbose tr :
  written (fst (exportToCsv fs rows outputCsv verbose tr))
  = written tr ++ [(outputCsv, content rows)]
  /\ decode (content rows) = Some (headersOf rows :: map (cells (headersOf rows)) rows)
  /\ (forall r,
        cells rowKeys r
        = [FieldName r; FieldLabel r; Description r; FieldType r; Formula r;
           FieldLength r; LookupRef r; Required r; HistoryTracking r;
           PicklistValues r; ControllingField r; LastModifiedDate r; Layouts r;
           Flexipages r; RecordTypes r; References r; ProfilesAndPermSets r])
  /\ (snd (exportToCsv fs rows outputCsv verbose tr) = Ok ()
      <-> writeFile fs outputCsv (content rows) = Ok ()).
Proof.
  split; [|split; [apply content_round_trip|split; [reflexivity|]]].
  - unfold exportToCsv, mbind, M_bind, try_catch, call, emit, call, mret, M_ret.
    destruct (unlink fs outputCsv) as [[]|e];
      destruct (writeFile fs outputCsv (content rows)) as [[]|e'];
      cbn [fst snd]; unfold written; rewrite ?omap_app; cbn;
      by rewrite ?app_nil_r, <- ?app_assoc.
  - unfold exportToCsv, mbind, M_bind, try_catch, call, emit, call, mret, M_ret.
    destruct (unlink fs outputCsv) as [[]|e];
      destruct (writeFile fs outputCsv (content rows)) as [[]|e']; cbn; split; done.
Qed.
End CsvProps.

(** ** The further properties on the sample runs *)

Section MoreSamples.
Import Value IO Notions Examples Samples.

Lemma containsField_case_sensitive_whole_word_witness :
  containsField "the Balance__c value" "Balance__c"
    {| ignoreCase := Some false; wholeWord := None |} = Some true.
Proof.
  apply (containsField_case_sensitive_whole_word
           "the Balance__c value" "Balance__c" None eq_refl).
  split; [discriminate|]. split; [discriminate|].
  exists "the ", " value". split; [reflexivity|].
  split; unfold word_boundary; vm_compute; discriminate.
Defined.

Lemma whole_word_implies_substring_witness :
  is_ascii "balance__C" = true
  /\ containsField "The Balance__c field" "balance__C"
       {| ignoreCase := Some true; wholeWord := Some false |} = Some true.
Proof.
  split; [reflexivity|].
  apply (whole_word_implies_substring "The Balance__c field" "balance__C").
  - reflexivity.
  - vm_compute. reflexivity.
Defined.

Lemma matches_up_to_ascii_case_witness :
  matches "the BALANCE__C value" "balance__c" = matches "The Balance__c Value" "Balance__C".
Proof.
  apply (matches_up_to_ascii_case "the BALANCE__C value" "The Balance__c Value"
           "balance__c" "Balance__C"); unfold same_up_to_ascii_case; vm_compute; reflexivity.
Defined.

Lemma searchUsage_by_key_witness :
  Search.searchUsage (Fields.layout fieldMaps) "priority__c"
  = "Case-Support.layout-meta.xml".
Proof.
  rewrite (searchUsage_by_key (Fields.layout fieldMaps) "priority__c").
  - vm_compute. reflexivity.
  - vm_compute. apply NoDup_singleton.
Defined.

Lemma required_column_witness :
  exists row,
    Fields.buildRow fieldMaps owner_doc owner_cf = Ok row /\ Required row = "TRUE".
Proof.
  eexists. split; [vm_compute; reflexivity|].
  destruct (required_column fieldMaps owner_doc owner_cf _ eq_refl) as [_ H].
  apply H. exists "True". split; reflexivity.
Defined.

Lemma lookup_reference_column_witness :
  exists row,
    Fields.buildRow fieldMaps owner_doc owner_cf = Ok row
    /\ FieldType row = "Lookup"
    /\ Fields.readXmlFieldValue owner_doc ["CustomField"; "referenceTo"]
       = Ok (LookupRef row).
Proof.
  eexists. split; [vm_compute; reflexivity|]. split; [reflexivity|].
  destruct (lookup_reference_column fieldMaps owner_doc owner_cf _ eq_refl) as [_ H].
  apply H. reflexivity.
Defined.

Lemma processFields_first_failure_aborts_witness :
  let w := world true ["Priority__c"; "Broken"; "Balance__c"] in
  snd (Fields.processFields w fieldsPath fieldMaps true [])
  = Throw (Rejected "Unclosed root tag")
  /\ documents_read (fst (Fields.processFields w fieldsPath fieldMaps true []))
     = ["Priority__c"; "Broken"].
Proof.
  cbv zeta.
  apply (processFields_first_failure_aborts
           (world true ["Priority__c"; "Broken"; "Balance__c"])
           fieldsPath fieldMaps true [] ["Priority__c"] [priority_doc]
           "Broken" ["Balance__c"] (Rejected "Unclosed root tag")).
  - reflexivity.
  - reflexivity.
  - repeat constructor. eexists. split; reflexivity.
  - repeat constructor.
  - right. left. exists "Broken". split; reflexivity.
Defined.

Lemma processFields_reads_each_document_once_witness :
  let files := ["Priority__c"; "Other"; "Empty"; "Balance__c"] in
  documents_read (fst (Fields.processFields (world true files) fieldsPath fieldMaps true []))
  = files
  /\ exists rows,
       snd (Fields.processFields (world true files) fieldsPath fieldMaps true [])
       = Ok rows
       /\ length rows = 2.
Proof.
  cbv zeta.
  apply (processFields_reads_each_document_once
           (world true ["Priority__c"; "Other"; "Empty"; "Balance__c"])
           fieldsPath fieldMaps true []
           ["Priority__c"; "Other"; "Empty"; "Balance__c"]
           [priority_doc; other_doc; empty_root_doc; balance_doc]).
  - reflexivity.
  - reflexivity.
  - discriminate.
  - repeat constructor; eexists; split; reflexivity.
  - repeat constructor.
Defined.

Lemma toPosix_normalizes_witness :
  JS.includes "force-app/main/objects" "\" = false
  /\ Fields.toPosix "force-app/main/objects" = "force-app/main/objects".
Proof.
  split; [reflexivity|].
  apply (proj2 (proj2 (proj2 (toPosix_normalizes "force-app/main/objects")))).
  reflexivity.
Defined.

Lemma not_found_message_names_object_witness :
  Fields.parent_segment "repo\objects/Case\fields" = "Case"
  /\ Fields.parent_segment "fields" = "undefined".
Proof.
  apply (not_found_message_names_object "repo\objects" "/" "Case" "\" "fields");
    reflexivity.
Defined.

Lemma buildLastModifiedMap_last_record_wins_witness :
  exists m,
    snd (Run.buildLastModifiedMap (csvFiles true) parseCsv "Case_LastModified.csv" true [])
    = Ok m
    /\ m !! "priority__c" = Some "2024-05-01".
Proof.
  destruct (buildLastModifiedMap_last_record_wins (csvFiles true) parseCsv
              "Case_LastModified.csv" true [] "last-modified"
              [] priorityRecord [otherRecord] "priority__c"
              eq_refl eq_refl eq_refl) as (m & Hm & Hk & _).
  exists m. split; [exact Hm|]. apply Hk.
  - split; [discriminate|]. split; [discriminate|]. right. reflexivity.
  - repeat constructor. intros (_ & _ & [H|H]); vm_compute in H; discriminate H.
Defined.

Lemma buildLastModifiedMap_keys_witness :
  snd (Run.buildLastModifiedMap (csvFiles false) parseCsv "Case_LastModified.csv" true [])
  = Ok ∅
  /\ forall m k,
       snd (Run.buildLastModifiedMap (csvFiles true) parseCsv "Case_LastModified.csv"
              true []) = Ok m ->
       is_Some (m !! k) -> JS.toLowerCase k = k.
Proof.
  destruct (buildLastModifiedMap_keys (csvFiles false) parseCsv
              "Case_LastModified.csv" true []) as [Ha _].
  destruct (buildLastModifiedMap_keys (csvFiles true) parseCsv
              "Case_LastModified.csv" true []) as [_ Hb].
  split.
  - by rewrite (Ha eq_refl).
  - intros m k Hm Hk.
    exact (proj1 (Hb "last-modified" [priorityRecord; otherRecord] m k
                    eq_refl eq_refl eq_refl Hm Hk)).
Defined.

Lemma lastModified_date_of_developer_name_witness :
  exists row,
    Fields.buildRow datedMaps priority_doc priority_cf = Ok row
    /\ FieldName row = "Priority__c"
    /\ LastModifiedDate row = "2024-05-01".
Proof.
  eexists. split; [vm_compute; reflexivity|]. split; [reflexivity|].
  apply (lastModified_date_of_developer_name (csvFiles true) parseCsv
           "Case_LastModified.csv" true [] "last-modified"
           datedMaps priority_doc priority_cf _ [] priorityRecord [otherRecord]).
  - reflexivity.
  - reflexivity.
  - reflexivity.
  - reflexivity.
  - reflexivity.
  - discriminate.
  - right. reflexivity.
  - discriminate.
  - repeat constructor. intros (_ & _ & [H|H]); vm_compute in H; discriminate H.
Defined.

Lemma fetchFieldDefinitions_outcome_witness :
  snd (Fetch.fetchFieldDefinitions (process "linux" cliSucceeds) parseCsv
         "DevHub" "Case" true None [])
  = Ok [{| Standard.QualifiedApiName := "Name"; Standard.DataType := "Text" |};
        {| Standard.QualifiedApiName := ""; Standard.DataType := "Text" |}]
  /\ snd (Fetch.fetchFieldDefinitions (process "win32" cliFails) parseCsv
            "DevHub" "Case" true None [])
     = Throw (Error "Salesforce CLI failed. No authorization found").
Proof.
  split.
  - exact (proj1 (proj2 (fetchFieldDefinitions_outcome (process "linux" cliSucceeds)
                           parseCsv "DevHub" "Case" true None [] cliSucceeds
                           (fun _ _ => eq_refl))
                    [nameRecord; namelessRecord] eq_refl eq_refl)).
  - exact (proj1 (proj1 (fetchFieldDefinitions_outcome (process "win32" cliFails)
                           parseCsv "DevHub" "Case" true None [] cliFails
                           (fun _ _ => eq_refl))
                    "Command failed" eq_refl)).
Defined.

Lemma includeStandardFields_never_fatal_witness :
  exists rows,
    snd (Run.includeStandardFields (process "linux" cliFails) parseCsv "Case" "DevHub"
           false true [statusRow] accessMaps []) = Ok rows
    /\ take 1 rows = [statusRow].
Proof.
  destruct (includeStandardFields_never_fatal (process "linux" cliFails) parseCsv
              "Case" "DevHub" false true [statusRow] accessMaps [] cliFails
              (fun _ _ => eq_refl)) as (rows & H1 & H2 & _).
  exists rows. split; [exact H1 | exact H2].
Defined.

Lemma includeStandardFields_degrades_witness :
  snd (Run.includeStandardFields (process "linux" cliFails) parseCsv "Case" "DevHub"
         false true [statusRow] accessMaps [])
  = Ok [statusRow]
  /\ warnings (fst (Run.includeStandardFields (process "linux" cliFails) parseCsv
                      "Case" "DevHub" false true [statusRow] accessMaps []))
     = ["Warning: Failed to fetch FieldDefinition. Salesforce CLI failed. No authorization found"].
Proof.
  destruct (includeStandardFields_degrades (process "linux" cliFails) parseCsv
              "Case" "DevHub" false [statusRow] accessMaps [] cliFails
              (fun _ _ => eq_refl)) as [H _].
  destruct (H "Command failed" eq_refl) as (H1 & H2 & _).
  split; [exact H1 | exact H2].
Defined.

Lemma blank_remote_name_skipped_witness :
  Standard.mergeStandardFields [statusRow]
    (map Fetch.toFieldDef [nameRecord; namelessRecord]) accessMaps
  = Standard.mergeStandardFields [statusRow]
      (map Fetch.toFieldDef [nameRecord]) accessMaps.
Proof.
  apply (blank_remote_name_skipped [statusRow] accessMaps [nameRecord] namelessRecord []).
  left. reflexivity.
Defined.

End MoreSamples.
